(** * The n8n chat bridge: forwarding gateway and client bridge

    A shallow embedding of

    - [src/server/routes/chat.ts]  (the Express handler [handleChat]), and
    - [src/client/components/Chat.tsx]  (the React submit handler
      [sendMessage]),

    together with the JavaScript built-ins the two files call.  Effects
    (outbound [fetch], [console.error], the Express response, the React
    state setters) are recorded in an ordered trace; everything the
    environment decides (the webhook's answer, the clock, the process
    environment) is an explicit parameter. *)

From Stdlib Require Import ssreflect ZArith NArith List Ascii String PrimFloat DecimalString.
From Stdlib Require Import DecimalPos DecimalZ.
From stdpp Require Import base option list gmap strings.

Set Warnings "-register-all,-rewrite-rw".
#[local] Open Scope N_scope.

(** ** JavaScript values and built-ins *)
Module Js.

(** A JavaScript string is a sequence of UTF-16 code units. *)
Abbreviation jsstring := (list N).

(** Code units are 16 bits wide. *)
Definition code_unit (c : N) : Prop := c < 65536.
Definition well_formed (s : jsstring) : Prop := Forall code_unit s.

(** The ASCII string literals of the sources, as code units. *)
Definition lit (s : string) : jsstring :=
  List.map N_of_ascii (list_ascii_of_string s).

(** The values the handlers see: [undefined] and what [JSON.parse] builds.
    A number is an IEEE 754 double; an object maps property names to
    values. *)
Inductive JsValue : Type :=
| JUndefined
| JNull
| JBool (b : bool)
| JNum (x : float)
| JStr (s : jsstring)
| JArr (vs : list JsValue)
| JObj (o : gmap (list N) JsValue).

(** What a [throw] carries: an [Error] instance (any subclass), of which
    the handlers read only [message], or some other value. *)
Inductive Thrown : Type :=
| ThrowError (message : jsstring)
| ThrowValue (v : JsValue).

(** [error instanceof Error ? error.message : fallback] *)
Definition message_or (fallback : jsstring) (e : Thrown) : jsstring :=
  match e with
  | ThrowError m => m
  | ThrowValue _ => fallback
  end.

(** ToBoolean: the truthiness tested by [!x], [x || y] and [if (x)]. *)
Definition ToBoolean (v : JsValue) : bool :=
  match v with
  | JUndefined | JNull => false
  | JBool b => b
  | JNum x => negb (PrimFloat.is_zero x || PrimFloat.is_nan x)
  | JStr s => negb (bool_decide (s = []))
  | JArr _ | JObj _ => true
  end.

(** [x || y] on values: [x] when truthy, else [y]. *)
Definition or_else (x y : JsValue) : JsValue :=
  if ToBoolean x then x else y.

(** The [typeof] operator. *)
Definition typeof (v : JsValue) : jsstring :=
  match v with
  | JUndefined => lit "undefined"
  | JNull => lit "object"
  | JBool _ => lit "boolean"
  | JNum _ => lit "number"
  | JStr _ => lit "string"
  | JArr _ | JObj _ => lit "object"
  end.

(** WhiteSpace and LineTerminator code points, the ones
    [String.prototype.trim] strips: TAB, LF, VT, FF, CR, SP, NBSP,
    U+1680, U+2000..U+200A, LS, PS, U+202F, U+205F, U+3000, U+FEFF. *)
Definition is_white_space (c : N) : bool :=
  ((9 <=? c) && (c <=? 13)) || (c =? 32) || (c =? 160) || (c =? 5760)
  || ((8192 <=? c) && (c <=? 8202)) || (c =? 8232) || (c =? 8233)
  || (c =? 8239) || (c =? 8287) || (c =? 12288) || (c =? 65279).

Fixpoint trimStart (s : jsstring) : jsstring :=
  match s with
  | [] => []
  | c :: rest => if is_white_space c then trimStart rest else s
  end.

Definition trimEnd (s : jsstring) : jsstring :=
  rev (trimStart (rev s)).

(** [String.prototype.trim] *)
Definition trim (s : jsstring) : jsstring := trimEnd (trimStart s).

Definition white (c : N) : Prop := is_white_space c = true.

(** A string is tight when neither end is white space. *)
Definition tight (t : jsstring) : Prop :=
  (∀ c, head t = Some c → is_white_space c = false) ∧
  (∀ c, last t = Some c → is_white_space c = false).

(** Reading a property that is neither an index, nor [length], nor the
    name of a built-in prototype member ([message], [reply]): an own
    property of an object, [undefined] on every other value that can be
    coerced to an object, and no result on [undefined] and [null], where
    the engine throws a [TypeError]. *)
Definition Get (v : JsValue) (name : jsstring) : option JsValue :=
  match v with
  | JUndefined | JNull => None
  | JObj o => Some (default JUndefined (o !! name))
  | JBool _ | JNum _ | JStr _ | JArr _ => Some JUndefined
  end.

(** Number::toString on an integral value of magnitude below 10^21:
    plain decimal digits, with a minus sign when negative. *)
Definition Number_toString (z : Z) : jsstring :=
  lit (NilZero.string_of_int (Z.to_int z)).

(** *** [JSON.stringify] of an object with one string property *)

Definition hex_digit (n : N) : N :=
  if n <? 10 then 48 + n else 87 + n.

(** UnicodeEscape: backslash, [u], four lower-case hexadecimal digits. *)
Definition UnicodeEscape (c : N) : jsstring :=
  [92; 117; hex_digit (c / 4096 mod 16); hex_digit (c / 256 mod 16);
   hex_digit (c / 16 mod 16); hex_digit (c mod 16)].

Definition is_leading_surrogate (c : N) : bool := (55296 <=? c) && (c <=? 56319).
Definition is_trailing_surrogate (c : N) : bool := (56320 <=? c) && (c <=? 57343).

(** One code unit that is not part of a surrogate pair. *)
Definition quote_unit (c : N) : jsstring :=
  if c =? 8 then [92; 98]
  else if c =? 9 then [92; 116]
  else if c =? 10 then [92; 110]
  else if c =? 12 then [92; 102]
  else if c =? 13 then [92; 114]
  else if c =? 34 then [92; 34]
  else if c =? 92 then [92; 92]
  else if (c <? 32) || is_leading_surrogate c || is_trailing_surrogate c
       then UnicodeEscape c
  else [c].

(** The characters between the quotes of QuoteJSONString: a surrogate
    pair is one code point and is copied, a lone surrogate is escaped. *)
Fixpoint quote_body (s : jsstring) : jsstring :=
  match s with
  | [] => []
  | c :: rest =>
      if is_leading_surrogate c then
        match rest with
        | d :: rest' =>
            if is_trailing_surrogate d then c :: d :: quote_body rest'
            else UnicodeEscape c ++ quote_body rest
        | [] => UnicodeEscape c
        end
      else quote_unit c ++ quote_body rest
  end.

Definition QuoteJSONString (s : jsstring) : jsstring :=
  [34] ++ quote_body s ++ [34].

(** [JSON.stringify({ name: value })] for a string [value]. *)
Definition JSON_stringify_field (name value : jsstring) : jsstring :=
  [123] ++ QuoteJSONString name ++ [58] ++ QuoteJSONString value ++ [125].

(** *** Reading such a text back

    The reading a JSON parser gives to a compact string literal and to a
    compact object with a single string property. *)

Definition hex_value (d : N) : option N :=
  if (48 <=? d) && (d <=? 57) then Some (d - 48)
  else if (97 <=? d) && (d <=? 102) then Some (d - 87)
  else if (65 <=? d) && (d <=? 70) then Some (d - 55)
  else None.

Definition unescape (e : N) : option N :=
  if e =? 98 then Some 8
  else if e =? 116 then Some 9
  else if e =? 110 then Some 10
  else if e =? 102 then Some 12
  else if e =? 114 then Some 13
  else if (e =? 34) || (e =? 92) || (e =? 47) then Some e
  else None.

Definition hex4 (h3 h2 h1 h0 : N) : option N :=
  a ← hex_value h3; b ← hex_value h2; c ← hex_value h1; d ← hex_value h0;
  Some (a * 4096 + b * 256 + c * 16 + d).

(** From just after the opening quote up to the closing one: the decoded
    characters and the text that follows. *)
Fixpoint read_string_body (t : jsstring) : option (jsstring * jsstring) :=
  match t with
  | [] => None
  | c :: rest =>
      if c =? 34 then Some ([], rest)
      else if c =? 92 then
        match rest with
        | [] => None
        | e :: rest' =>
            if e =? 117 then
              match rest' with
              | h3 :: h2 :: h1 :: h0 :: rest'' =>
                  u ← hex4 h3 h2 h1 h0;
                  '(s, tail) ← read_string_body rest'';
                  Some (u :: s, tail)
              | _ => None
              end
            else
              u ← unescape e;
              '(s, tail) ← read_string_body rest';
              Some (u :: s, tail)
        end
      else if c <? 32 then None
      else '(s, tail) ← read_string_body rest; Some (c :: s, tail)
  end.

(** What reading gives with one more decoded unit in front. *)
Definition push (c : N) (r : option (jsstring * jsstring)) :
    option (jsstring * jsstring) :=
  '(s, tail) ← r; Some (c :: s, tail).

Definition read_string (t : jsstring) : option (jsstring * jsstring) :=
  match t with
  | c :: rest => if c =? 34 then read_string_body rest else None
  | [] => None
  end.

(** [JSON.parse(t)[name]] for a text [t] of the shape
    [JSON_stringify_field] writes. *)
Definition JSON_parse_field (name t : jsstring) : option jsstring :=
  match t with
  | b :: t1 =>
      if b =? 123 then
        '(k, t2) ← read_string t1;
        match t2 with
        | c :: t3 =>
            if (c =? 58) && bool_decide (k = name) then
              '(v, t4) ← read_string t3;
              match t4 with
              | [e] => if e =? 125 then Some v else None
              | _ => None
              end
            else None
        | [] => None
        end
      else None
  | [] => None
  end.

End Js.

(** ** Effects: a state and exception monad

    [async] functions are run to completion: each [await] is a sequence
    point, a rejected promise is a thrown value. *)
Module Eff.
Import Js.

Definition M (S A : Type) : Type := S → S * (Thrown + A).

Definition ret {S A} (a : A) : M S A := λ s, (s, inr a).
Definition throw {S A} (e : Thrown) : M S A := λ s, (s, inl e).
Definition bind {S A B} (m : M S A) (k : A → M S B) : M S B :=
  λ s, match m s with
       | (s', inr a) => k a s'
       | (s', inl e) => (s', inl e)
       end.
Definition modify {S} (f : S → S) : M S unit := λ s, (f s, inr tt).
Definition gets {S A} (f : S → A) : M S A := λ s, (s, inr (f s)).

(** [try { body } catch (e) { handler e }] *)
Definition try_catch {S A} (body : M S A) (handler : Thrown → M S A) : M S A :=
  λ s, match body s with
       | (s', inl e) => handler e s'
       | r => r
       end.

(** [try { body } finally { final }]: [final] always runs; the outcome is
    [body]'s unless [final] itself throws. *)
Definition try_finally {S A} (body : M S A) (final : M S unit) : M S A :=
  λ s, match body s with
       | (s', r) =>
           match final s' with
           | (s'', inr _) => (s'', r)
           | (s'', inl e) => (s'', inl e)
           end
       end.

(** A rejected promise or a thrown value from an [option]. *)
Definition lift {S A} (e : Thrown) (o : option A) : M S A :=
  match o with
  | Some a => ret a
  | None => throw e
  end.

Definition of_result {S A} (r : Thrown + A) : M S A := λ s, (s, r).

(** stdpp's [x ← m; k] and [m;; k] notations. *)
#[global] Instance M_ret S : MRet (M S) := λ A, ret.
#[global] Instance M_bind S : MBind (M S) := λ A B k m, bind m k.

End Eff.

(** ** The [fetch] interface both sides use *)
Module Net.
Import Js.

(** The second argument of [fetch]; [body] is the request text. *)
Record RequestInit : Type := {
  method : jsstring;
  headers : list (jsstring * jsstring);
  body : jsstring
}.

(** What the handlers read of a Response: [status], [statusText] and the
    outcome of [json()], which rejects when the body is not JSON. *)
Record Response : Type := {
  status : N;
  statusText : jsstring;
  json : Thrown + JsValue
}.

(** [response.ok]: the status is in the range 200..299. *)
Definition ok (r : Response) : bool :=
  (200 <=? status r) && (status r <=? 299).

(** [await fetch(...)]: the promise rejects or resolves to a Response. *)
Inductive FetchOutcome : Type :=
| Rejects (e : Thrown)
| Resolves (r : Response).

(** [JSON.stringify]-ed request with the JSON content type. *)
Definition post_json (text : jsstring) : RequestInit :=
  {| method := lit "POST";
     headers := [(lit "Content-Type", lit "application/json")];
     body := text |}.

(** An object literal. *)
Definition object (fields : list (jsstring * JsValue)) : JsValue :=
  JObj (list_to_map fields).

(** The three ways an exchange fails: the call itself rejects, the
    status is not a success and the handler throws [status_error], or the
    body of a success does not parse. *)
Inductive Fails (status_error : Response → Thrown) (o : FetchOutcome) : Thrown → Prop :=
| fails_call e :
    o = Rejects e → Fails status_error o e
| fails_status r :
    o = Resolves r → ok r = false → Fails status_error o (status_error r)
| fails_parse r e :
    o = Resolves r → ok r = true → json r = inl e → Fails status_error o e.

End Net.

(** ** The forwarding gateway: [src/server/routes/chat.ts] *)
Module Server.
Import Js Eff Net.

(** What the handler does to the outside, in order. [Respond] is
    [res.json(body)] with the status code set at that moment. *)
Inductive Effect : Type :=
| Fetch (url : jsstring) (init : RequestInit)
| ConsoleError (label : jsstring) (e : Thrown)
| Respond (code : N) (body : JsValue).

(** What the outside decides: the process environment, the webhook's
    answer to a request, and the engine's wording of a [TypeError]. *)
Record World : Type := {
  N8N_WEBHOOK_URL : option jsstring;
  network : jsstring → RequestInit → FetchOutcome;
  type_error : JsValue → jsstring → jsstring
}.

(** The Express response object: its status code, 200 until set, and the
    effects so far. *)
Record State : Type := {
  statusCode : N;
  trace : list Effect
}.

Definition start : State := {| statusCode := 200; trace := [] |}.

Definition emit (e : Effect) : M State unit :=
  modify (λ s, {| statusCode := statusCode s; trace := trace s ++ [e] |}).

(** [res.status(code)] *)
Definition res_status (code : N) : M State unit :=
  modify (λ s, {| statusCode := code; trace := trace s |}).

(** [res.json(body)] *)
Definition res_json (body : JsValue) : M State unit :=
  code ← gets statusCode; emit (Respond code body).

(** [await fetch(url, init)] *)
Definition fetch (w : World) (url : jsstring) (init : RequestInit) : M State Response :=
  emit (Fetch url init);;
  match network w url init with
  | Rejects e => throw e
  | Resolves r => mret r
  end.

(** [const { name } = v] and [v.name] *)
Definition get_property (w : World) (v : JsValue) (name : jsstring) : M State JsValue :=
  lift (ThrowError (type_error w v name)) (Get v name).

(** [v.trim()] *)
Definition call_trim (w : World) (v : JsValue) : M State jsstring :=
  match v with
  | JStr s => mret (trim s)
  | _ => throw (ThrowError (type_error w v (lit "trim")))
  end.

(** [process.env.NAME] as a value: a string or [undefined]. *)
Definition env_value (o : option jsstring) : JsValue :=
  match o with
  | Some s => JStr s
  | None => JUndefined
  end.

(** [new Error(`n8n webhook returned status ${status}: ${statusText}`)] *)
Definition status_error (r : Response) : Thrown :=
  ThrowError (lit "n8n webhook returned status "
              ++ Number_toString (Z.of_N (status r))
              ++ lit ": " ++ statusText r).

(** [!message || typeof message !== "string" || !message.trim()], left
    to right with short circuit. *)
Definition message_rejected (w : World) (message : JsValue) : M State bool :=
  if negb (ToBoolean message) then mret true
  else if bool_decide (typeof message ≠ lit "string") then mret true
  else t ← call_trim w message; mret (negb (ToBoolean (JStr t))).

Definition handleChat (w : World) (req_body : JsValue) : M State unit :=
  message ← get_property w req_body (lit "message");
  rejected ← message_rejected w message;
  if (rejected : bool) then
    res_status 400;;
    res_json (object [(lit "error", JStr (lit "Message is required"))])
  else
    let webhookUrl := N8N_WEBHOOK_URL w in
    if negb (ToBoolean (env_value webhookUrl)) then
      res_status 500;;
      res_json (object [(lit "error", JStr (lit
        "N8N_WEBHOOK_URL is not configured. Please set it in your environment variables."))])
    else
      try_catch
        (query ← call_trim w message;
         response ← fetch w (default [] webhookUrl)
                      (post_json (JSON_stringify_field (lit "query") query));
         (if negb (ok response) then throw (status_error response)
          else mret tt);;
         data ← of_result (json response);
         res_json data)
        (λ error,
           emit (ConsoleError (lit "Chat API error:") error);;
           let errorMsg := message_or (lit "Failed to process your message") error in
           res_status 500;;
           res_json (object
             [(lit "error", JStr errorMsg);
              (lit "message", JStr (lit
                "Unable to reach the chat service. Please try again later."))])).

(** One request, from a fresh response object: the final state and
    whether the handler's promise resolved or rejected. *)
Definition run (w : World) (req_body : JsValue) : State * (Thrown + unit) :=
  handleChat w req_body start.

Definition outbound (tr : list Effect) : list (jsstring * RequestInit) :=
  omap (λ e, match e with Fetch u i => Some (u, i) | _ => None end) tr.

Definition responses (tr : list Effect) : list (N * JsValue) :=
  omap (λ e, match e with Respond c b => Some (c, b) | _ => None end) tr.

Definition logged (tr : list Effect) : list (jsstring * Thrown) :=
  omap (λ e, match e with ConsoleError l x => Some (l, x) | _ => None end) tr.

(** A [message] the gateway does not take: missing, not a string, or a
    string with nothing left once trimmed. *)
Inductive Invalid : JsValue → Prop :=
| invalid_missing : Invalid JUndefined
| invalid_type m : (∀ s, m ≠ JStr s) → Invalid m
| invalid_blank s : trim s = [] → Invalid (JStr s).

(** The [message] field of a request, whatever its body: the field of a
    body that has one, and missing ([undefined]) when the body has none
    or there is no body at all. *)
Definition requested (req_body : JsValue) : JsValue :=
  default JUndefined (Get req_body (lit "message")).

(** The request the gateway sends for a message, and the two error
    bodies it answers with on its own. *)
Definition forwarded (message : jsstring) : RequestInit :=
  post_json (JSON_stringify_field (lit "query") (trim message)).

Definition message_required : JsValue :=
  object [(lit "error", JStr (lit "Message is required"))].

Definition not_configured : JsValue :=
  object [(lit "error", JStr (lit
    "N8N_WEBHOOK_URL is not configured. Please set it in your environment variables."))].

Definition unreachable (e : Thrown) : JsValue :=
  object
    [(lit "error", JStr (message_or (lit "Failed to process your message") e));
     (lit "message", JStr (lit
       "Unable to reach the chat service. Please try again later."))].

(** How a forwarded request ends when the exchange fails with [e]. *)
Definition failed (url s : jsstring) (e : Thrown) : State * (Thrown + unit) :=
  ({| statusCode := 500;
      trace := [Fetch url (forwarded s);
                ConsoleError (lit "Chat API error:") e;
                Respond 500 (unreachable e)] |}, inr tt).

End Server.

(** ** The client bridge: [sendMessage] of [src/client/components/Chat.tsx] *)
Module Client.
Import Js Eff Net.

Inductive Sender : Type := user | bot.

(** A transcript entry. [text] is whatever value the handler stores: the
    input string for a user entry, [botReply] for a bot entry. *)
Record Message : Type := {
  id : jsstring;
  text : JsValue;
  sender : Sender;
  timestamp : Z
}.

(** The component's four [useState] cells. *)
Record ChatState : Type := {
  messages : list Message;
  input : jsstring;
  isLoading : bool;
  error : option jsstring
}.

(** What the handler does, in order: state updates handed to React, the
    request, the console, the focus call. *)
Inductive Effect : Type :=
| PreventDefault
| SetMessages (entry : Message)
| SetInput (value : jsstring)
| SetError (value : option jsstring)
| SetIsLoading (value : bool)
| Fetch (url : jsstring) (init : RequestInit)
| ConsoleError (label : jsstring) (e : Thrown)
| Focus.

(** What the outside decides: the gateway's answer, the successive
    readings of the clock, the engine's wording of a [TypeError]. *)
Record World : Type := {
  network : jsstring → RequestInit → FetchOutcome;
  clock : nat → Z;
  type_error : JsValue → jsstring → jsstring
}.

Record State : Type := {
  ticks : nat;
  trace : list Effect
}.

Definition start : State := {| ticks := 0; trace := [] |}.

Definition emit (e : Effect) : M State unit :=
  modify (λ s, {| ticks := ticks s; trace := trace s ++ [e] |}).

(** [Date.now()] and the time value of [new Date()] *)
Definition now (w : World) : M State Z :=
  t ← gets ticks;
  modify (λ s, {| ticks := S (ticks s); trace := trace s |});;
  mret (clock w t).

(** [await fetch(url, init)] *)
Definition fetch (w : World) (url : jsstring) (init : RequestInit) : M State Response :=
  emit (Fetch url init);;
  match network w url init with
  | Rejects e => throw e
  | Resolves r => mret r
  end.

(** [v.name] *)
Definition get_property (w : World) (v : JsValue) (name : jsstring) : M State JsValue :=
  lift (ThrowError (type_error w v name)) (Get v name).

(** [new Error(`API error: ${statusText}`)] *)
Definition status_error (r : Response) : Thrown :=
  ThrowError (lit "API error: " ++ statusText r).

(** [data.reply || data.message || "No response from bot"], left to
    right with short circuit. *)
Definition botReply (w : World) (data : JsValue) : M State JsValue :=
  reply ← get_property w data (lit "reply");
  if ToBoolean reply then mret reply
  else
    message ← get_property w data (lit "message");
    mret (or_else message (JStr (lit "No response from bot"))).

(** The handler, closed over the [input] of the render it belongs to. *)
Definition sendMessage (w : World) (input : jsstring) : M State unit :=
  emit PreventDefault;;
  if negb (ToBoolean (JStr (trim input))) then mret tt
  else
    created ← now w;
    stamp ← now w;
    let userMessage :=
      {| id := Number_toString created; text := JStr input;
         sender := user; timestamp := stamp |} in
    emit (SetMessages userMessage);;
    emit (SetInput []);;
    emit (SetError None);;
    emit (SetIsLoading true);;
    try_finally
      (try_catch
         (response ← fetch w (lit "/api/chat")
                       (post_json (JSON_stringify_field (lit "message") input));
          (if negb (ok response) then throw (status_error response)
           else mret tt);;
          data ← of_result (json response);
          reply ← botReply w data;
          created' ← now w;
          stamp' ← now w;
          let botMessage :=
            {| id := Number_toString (created' + 1); text := reply;
               sender := bot; timestamp := stamp' |} in
          emit (SetMessages botMessage))
         (λ err,
            let errorMsg := message_or (lit "Failed to send message") err in
            emit (SetError (Some errorMsg));;
            emit (ConsoleError (lit "Chat error:") err)))
      (emit (SetIsLoading false);;
       emit Focus).

(** React applies the queued updates in order; [setMessages] is given an
    updater that appends to the transcript of the moment. *)
Definition update (st : ChatState) (e : Effect) : ChatState :=
  match e with
  | SetMessages m =>
      {| messages := messages st ++ [m]; input := input st;
         isLoading := isLoading st; error := error st |}
  | SetInput v =>
      {| messages := messages st; input := v;
         isLoading := isLoading st; error := error st |}
  | SetError v =>
      {| messages := messages st; input := input st;
         isLoading := isLoading st; error := v |}
  | SetIsLoading v =>
      {| messages := messages st; input := input st;
         isLoading := v; error := error st |}
  | PreventDefault | Fetch _ _ | ConsoleError _ _ | Focus => st
  end.

Definition render (st : ChatState) (tr : list Effect) : ChatState :=
  fold_left update tr st.

(** One submission from the state [st]: the effects, in order. *)
Definition submit (w : World) (st : ChatState) : list Effect :=
  trace (sendMessage w (input st) start).1.

(** The state once the submission has settled. *)
Definition settled (w : World) (st : ChatState) : ChatState :=
  render st (submit w st).

(** The effects up to the first request, that request excluded. *)
Fixpoint before_request (tr : list Effect) : list Effect :=
  match tr with
  | [] => []
  | Fetch _ _ :: _ => []
  | e :: rest => e :: before_request rest
  end.

Definition requests (tr : list Effect) : list (jsstring * RequestInit) :=
  omap (λ e, match e with Fetch u i => Some (u, i) | _ => None end) tr.

Definition is_bot (m : Message) : bool :=
  match sender m with
  | bot => true
  | user => false
  end.

Definition bot_entries (ms : list Message) : list Message :=
  List.filter is_bot ms.

(** The entry and the request of a submission of [text]. *)
Definition user_entry (w : World) (text : jsstring) : Message :=
  {| id := Number_toString (clock w 0); text := JStr text;
     sender := user; timestamp := clock w 1 |}.

Definition bot_entry (w : World) (reply : JsValue) : Message :=
  {| id := Number_toString (clock w 2 + 1); text := reply;
     sender := bot; timestamp := clock w 3 |}.

Definition posted (text : jsstring) : RequestInit :=
  post_json (JSON_stringify_field (lit "message") text).

Definition no_response : JsValue := JStr (lit "No response from bot").

(** The effects of a submission up to its request, and after the
    exchange has settled. *)
Definition opening (w : World) (text : jsstring) : list Effect :=
  [PreventDefault; SetMessages (user_entry w text); SetInput [];
   SetError None; SetIsLoading true;
   Fetch (lit "/api/chat") (posted text)].

Definition closing : list Effect := [SetIsLoading false; Focus].

Definition failure (w : World) (text : jsstring) (e : Thrown) : list Effect :=
  opening w text
  ++ [SetError (Some (message_or (lit "Failed to send message") e));
      ConsoleError (lit "Chat error:") e]
  ++ closing.

Definition success (w : World) (text : jsstring) (reply : JsValue) : list Effect :=
  opening w text ++ [SetMessages (bot_entry w reply)] ++ closing.

(** A field of a response body: present only on an object that has it. *)
Definition field (data : JsValue) (name : jsstring) : option JsValue :=
  match data with
  | JObj o => o !! name
  | _ => None
  end.

(** The selection as the specification words it: [reply] if present,
    else [message] if present, else the literal. *)
Definition present_first (data : JsValue) : JsValue :=
  match field data (lit "reply") with
  | Some r => r
  | None =>
      match field data (lit "message") with
      | Some m => m
      | None => no_response
      end
  end.

(** The selection by presence and truthiness: a field counts when it is
    present and not falsy (for a string: not empty). *)
Definition usable (o : option JsValue) : option JsValue :=
  match o with
  | Some v => if ToBoolean v then Some v else None
  | None => None
  end.

Definition truthy_first (data : JsValue) : JsValue :=
  match usable (field data (lit "reply")) with
  | Some r => r
  | None =>
      match usable (field data (lit "message")) with
      | Some m => m
      | None => no_response
      end
  end.

End Client.

(** ** What the component draws: the JSX of [Chat] and its [onChange] *)
Module Screen.
Import Js Net Client.

(** [s.startsWith(needle)] *)
Fixpoint starts_with (needle s : jsstring) : bool :=
  match needle, s with
  | [], _ => true
  | _ :: _, [] => false
  | a :: needle', b :: s' => (a =? b) && starts_with needle' s'
  end.

(** [s.includes(needle)]: [needle] occurs somewhere in [s]. *)
Fixpoint includes (s needle : jsstring) : bool :=
  starts_with needle s
  || match s with
     | [] => false
     | _ :: rest => includes rest needle
     end.

(** The [error] cell as a value: a string or [null]. *)
Definition error_value (o : option jsstring) : JsValue :=
  match o with
  | Some s => JStr s
  | None => JNull
  end.

Inductive Justify : Type := justify_end | justify_start.

(** One entry of the transcript as drawn: its React key, the side it is
    aligned to, the avatar beside it and the text inside. *)
Record Bubble : Type := {
  key : jsstring;
  justify : Justify;
  avatar : jsstring;
  content : JsValue
}.

Definition bubble (message : Message) : Bubble :=
  {| key := id message;
     justify := match sender message with
                | user => justify_end
                | bot => justify_start
                end;
     avatar := match sender message with
               | bot => lit "AI"
               | user => lit "You"
               end;
     content := text message |}.

(** The error panel: the text shown and whether the hint about the
    environment file is added. *)
Record Panel : Type := {
  shown : jsstring;
  hint : bool
}.

Record Drawn : Type := {
  empty_state : bool;
  error_panel : option Panel;
  bubbles : list Bubble;
  typing : bool;
  field_value : jsstring;
  field_disabled : bool;
  button_disabled : bool;
  button_label : jsstring
}.

(** The JSX the component returns, by the parts that depend on state.
    This is the element tree the function hands to React; what React
    draws from it, or fails to draw, is [displayed] below. *)
Definition Chat (st : ChatState) : Drawn :=
  {| empty_state :=
       (length (messages st) =? 0)%nat
       && negb (ToBoolean (error_value (error st)));
     error_panel :=
       match error st with
       | Some error =>
           if ToBoolean (JStr error)
           then Some {| shown := error;
                        hint := includes error (lit "N8N_WEBHOOK_URL") |}
           else None
       | None => None
       end;
     bubbles := List.map bubble (messages st);
     typing := isLoading st;
     field_value := input st;
     field_disabled := isLoading st;
     button_disabled :=
       isLoading st || negb (ToBoolean (JStr (trim (input st))));
     button_label := if isLoading st then lit "Sending..." else lit "Send" |}.

(** What React accepts as the child [{message.text}]: a string or a
    number is drawn as text, a boolean, [null] and [undefined] draw
    nothing, an array is drawn child by child, and on an object React
    throws ("Objects are not valid as a React child"). *)
Fixpoint valid_child (v : JsValue) : bool :=
  match v with
  | JObj _ => false
  | JArr vs => forallb valid_child vs
  | JUndefined | JNull | JBool _ | JNum _ | JStr _ => true
  end.

(** React rendering the returned JSX: the only children that come from
    data are the texts of the bubbles. When one of them is not a valid
    child the render throws and, there being no error boundary, React
    unmounts the component: nothing of it is drawn. *)
Definition mount (d : Drawn) : option Drawn :=
  if forallb (λ b, valid_child (content b)) (bubbles d) then Some d else None.

(** What is on the screen in a state: the drawn component, or nothing. *)
Definition displayed (st : ChatState) : option Drawn := mount (Chat st).

(** [onChange={(e) => setInput(e.target.value)}] *)
Definition onChange (value : jsstring) : list Effect := [SetInput value].

(** The state the component is in while the request is out. *)
Definition in_flight (w : World) (st : ChatState) : ChatState :=
  render st (before_request (submit w st)).

End Screen.

(** ** The hop between the two

    What lies between the bridge's [fetch] and the gateway's handler is
    not in the two files: the body parser hands the handler the parsed
    request text, and the browser's [fetch] resolves with the status and
    the body of [res.json]. Both are stated here to be assumed where a
    property spans the two sides. *)
Module Hop.
Import Js Net.

(** The request body the handler sees for a request text
    [{"message": text}]. *)
Definition received (text : jsstring) : JsValue :=
  object [(lit "message", JStr text)].

(** The Response the bridge sees carries an answer of the gateway. *)
Definition Delivers (answer : N * JsValue) (r : Response) : Prop :=
  status r = answer.1 ∧ json r = inr answer.2.

End Hop.

(** ** Concrete requests, answers and worlds *)
Module Examples.
Import Js Net.

Definition webhook : jsstring := lit "http://localhost:5678/webhook/chat".

Definition hello : jsstring := lit "  Hello ".

Definition says (text : jsstring) : JsValue :=
  object [(lit "message", JStr text)].

Definition answers (code : N) (reason : jsstring) (data : JsValue) : Response :=
  {| status := code; statusText := reason; json := inr data |}.

Definition hi_there : JsValue := object [(lit "reply", JStr (lit "Hi there"))].

Definition hi_as_message : JsValue := object [(lit "message", JStr (lit "Hi"))].

Definition empty_reply : JsValue :=
  object [(lit "reply", JStr []); (lit "message", JStr (lit "Hi"))].

Definition unavailable : Response :=
  answers 503 (lit "Service Unavailable") JNull.

Definition wording (v : JsValue) (name : jsstring) : jsstring :=
  lit "Cannot read properties of undefined (reading '" ++ name ++ lit "')".

Definition gateway (address : option jsstring) (o : FetchOutcome) : Server.World :=
  {| Server.N8N_WEBHOOK_URL := address;
     Server.network := λ _ _, o;
     Server.type_error := wording |}.

Definition browser (o : FetchOutcome) : Client.World :=
  {| Client.network := λ _ _, o;
     Client.clock := λ n, (1700000000000 + Z.of_nat n)%Z;
     Client.type_error := wording |}.

Definition typed (text : jsstring) : Client.ChatState :=
  {| Client.messages := [];
     Client.input := text;
     Client.isLoading := false;
     Client.error := Some (lit "API error: Bad Gateway") |}.

End Examples.

(** * Properties *)

(** ** [String.prototype.trim] *)
Section Trim.
Import Js.

Lemma trimStart_split (s : jsstring) :
  ∃ pre, s = pre ++ trimStart s ∧ Forall white pre.
Proof.
  induction s as [|c s [pre [Hs Hpre]]]; [by exists []|].
  simpl. destruct (is_white_space c) eqn:Hc.
  - exists (c :: pre). split; [by rewrite /= -Hs | by constructor].
  - by exists [].
Qed.

Lemma trimStart_head (s : jsstring) (c : N) :
  head (trimStart s) = Some c → is_white_space c = false.
Proof.
  induction s as [|d s IH]; [done|].
  simpl. destruct (is_white_space d) eqn:Hd; [done|].
  simpl. by intros [= <-].
Qed.

Lemma trimStart_white_app (pre t : jsstring) :
  Forall white pre → trimStart (pre ++ t) = trimStart t.
Proof.
  induction 1 as [|c pre Hc _ IH]; [done|].
  simpl. by rewrite Hc.
Qed.

Lemma trimStart_fixed (t : jsstring) :
  (∀ c, head t = Some c → is_white_space c = false) → trimStart t = t.
Proof.
  destruct t as [|c t]; [done|].
  intros H. simpl. by rewrite (H c).
Qed.

Lemma trimStart_all_white (s : jsstring) :
  trimStart s = [] ↔ Forall white s.
Proof.
  split.
  - intros H. destruct (trimStart_split s) as [pre [Hs Hpre]].
    rewrite H app_nil_r in Hs. by subst.
  - intros H. rewrite -(app_nil_r s). by rewrite trimStart_white_app.
Qed.

Lemma trimEnd_split (s : jsstring) :
  ∃ post, s = trimEnd s ++ post ∧ Forall white post.
Proof.
  destruct (trimStart_split (rev s)) as [pre [Hs Hpre]].
  exists (rev pre). split.
  - rewrite /trimEnd -rev_app_distr -Hs. by rewrite rev_involutive.
  - by apply List.Forall_rev.
Qed.

Lemma last_rev_head (s : jsstring) : last (rev s) = head s.
Proof. destruct s as [|c s]; [done|]. simpl. by rewrite last_snoc. Qed.

Lemma head_rev_last (s : jsstring) : head (rev s) = last s.
Proof. by rewrite -(last_rev_head (rev s)) rev_involutive. Qed.

Lemma trimEnd_last (s : jsstring) (c : N) :
  last (trimEnd s) = Some c → is_white_space c = false.
Proof.
  rewrite /trimEnd last_rev_head. apply trimStart_head.
Qed.

Lemma trimEnd_head (s : jsstring) (c : N) :
  head (trimEnd s) = Some c → head s = Some c.
Proof.
  destruct (trimEnd_split s) as [post [Hs _]].
  intros H. rewrite Hs. by destruct (trimEnd s).
Qed.

Lemma trimEnd_app_white (t post : jsstring) :
  Forall white post → trimEnd (t ++ post) = trimEnd t.
Proof.
  intros H. rewrite /trimEnd rev_app_distr.
  rewrite (trimStart_white_app (rev post)) //.
  by apply List.Forall_rev.
Qed.

Lemma trimEnd_fixed (t : jsstring) :
  (∀ c, last t = Some c → is_white_space c = false) → trimEnd t = t.
Proof.
  intros H. rewrite /trimEnd trimStart_fixed.
  - intros c. rewrite head_rev_last. apply H.
  - apply rev_involutive.
Qed.

(** [trim] removes a run of white space at each end and nothing else. *)
Lemma trim_split (s : jsstring) :
  ∃ pre post, s = pre ++ trim s ++ post ∧ Forall white pre ∧ Forall white post.
Proof.
  destruct (trimStart_split s) as [pre [Hs Hpre]].
  destruct (trimEnd_split (trimStart s)) as [post [Ht Hpost]].
  exists pre, post. split; [|done].
  by rewrite /trim -Ht.
Qed.

(** What is left has no white space at either end. *)
Lemma trim_tight (s : jsstring) : tight (trim s).
Proof.
  split; intros c H.
  - apply (trimStart_head s). by apply trimEnd_head.
  - by apply (trimEnd_last (trimStart s)).
Qed.

(** These two facts determine [trim]. *)
Lemma trim_unique (s pre t post : jsstring) :
  s = pre ++ t ++ post → Forall white pre → Forall white post → tight t →
  trim s = t.
Proof.
  intros -> Hpre Hpost [Hhead Hlast].
  rewrite /trim (trimStart_white_app pre) //.
  destruct t as [|c t].
  - simpl. by apply trimStart_all_white in Hpost as ->.
  - rewrite (trimStart_fixed ((c :: t) ++ post)).
    + simpl. intros d [= <-]. by apply Hhead.
    + rewrite (trimEnd_app_white (c :: t)) //. by apply trimEnd_fixed.
Qed.

Lemma trim_idempotent (s : jsstring) : trim (trim s) = trim s.
Proof.
  apply (trim_unique _ [] _ []); [by rewrite app_nil_r | done | done |].
  apply trim_tight.
Qed.

(** A string trims to nothing exactly when it is white space only. *)
Lemma trim_empty (s : jsstring) : trim s = [] ↔ Forall white s.
Proof.
  split.
  - intros H. destruct (trim_split s) as (pre & post & Hs & Hpre & Hpost).
    rewrite H in Hs. subst s. by apply Forall_app.
  - intros H. apply (trim_unique _ s _ []); [by rewrite !app_nil_r|done|done|].
    by split.
Qed.

Lemma trim_well_formed (s : jsstring) : well_formed s → well_formed (trim s).
Proof.
  intros H. destruct (trim_split s) as (pre & post & Hs & _).
  rewrite /well_formed Hs in H.
  apply Forall_app in H as [_ H]. by apply Forall_app in H as [H _].
Qed.

End Trim.

(** ** The request text reads back as the string it was made from *)
Section Json.
Import Js.

Ltac compare_units :=
  repeat match goal with
    | |- context [N.eqb ?a ?b] => destruct (N.eqb_spec a b)
    | |- context [N.ltb ?a ?b] => destruct (N.ltb_spec a b)
    | |- context [N.leb ?a ?b] => destruct (N.leb_spec a b)
    end; simpl; try lia; try done.

Lemma hex_value_digit (n : N) : n < 16 → hex_value (hex_digit n) = Some n.
Proof.
  intros H. rewrite /hex_value /hex_digit.
  destruct (N.ltb_spec n 10); compare_units; f_equal; lia.
Qed.

Lemma hex4_escape (c : N) :
  code_unit c →
  hex4 (hex_digit (c / 4096 mod 16)) (hex_digit (c / 256 mod 16))
       (hex_digit (c / 16 mod 16)) (hex_digit (c mod 16)) = Some c.
Proof.
  rewrite /code_unit /hex4. intros H.
  rewrite !hex_value_digit; try (apply N.mod_lt; lia).
  simpl. f_equal. zify. Z.to_euclidean_division_equations. lia.
Qed.

Lemma read_escape (c : N) (rest : jsstring) :
  code_unit c →
  read_string_body (UnicodeEscape c ++ rest) = push c (read_string_body rest).
Proof.
  intros H. rewrite /UnicodeEscape /=. by rewrite hex4_escape.
Qed.

Lemma read_unit (c : N) (rest : jsstring) :
  code_unit c →
  read_string_body (quote_unit c ++ rest) = push c (read_string_body rest).
Proof.
  intros H. rewrite /quote_unit.
  destruct (N.eqb_spec c 8) as [->|]; [done|].
  destruct (N.eqb_spec c 9) as [->|]; [done|].
  destruct (N.eqb_spec c 10) as [->|]; [done|].
  destruct (N.eqb_spec c 12) as [->|]; [done|].
  destruct (N.eqb_spec c 13) as [->|]; [done|].
  destruct (N.eqb_spec c 34) as [->|]; [done|].
  destruct (N.eqb_spec c 92) as [->|]; [done|].
  destruct ((c <? 32) || is_leading_surrogate c || is_trailing_surrogate c) eqn:E.
  - by apply read_escape.
  - apply orb_false_iff in E as [E _]. apply orb_false_iff in E as [E _].
    apply N.ltb_ge in E. simpl.
    destruct (N.eqb_spec c 34); [done|].
    destruct (N.eqb_spec c 92); [done|].
    destruct (N.ltb_spec c 32); [lia|done].
Qed.

Lemma read_surrogate (c : N) (rest : jsstring) :
  55296 ≤ c → read_string_body (c :: rest) = push c (read_string_body rest).
Proof.
  intros H. simpl.
  destruct (N.eqb_spec c 34); [lia|].
  destruct (N.eqb_spec c 92); [lia|].
  destruct (N.ltb_spec c 32); [lia|done].
Qed.

Lemma quote_body_cons (c : N) (rest : jsstring) :
  quote_body (c :: rest) =
  if is_leading_surrogate c then
    match rest with
    | d :: rest' =>
        if is_trailing_surrogate d then c :: d :: quote_body rest'
        else UnicodeEscape c ++ quote_body rest
    | [] => UnicodeEscape c
    end
  else quote_unit c ++ quote_body rest.
Proof. done. Qed.

Lemma read_quote_body_bounded (n : nat) (s tail : jsstring) :
(length s ≤ n)%nat → well_formed s →
  read_string_body (quote_body s ++ 34 :: tail) = Some (s, tail).
Proof.
  revert s. induction n as [|n IH]; intros s Hn Hs.
  { destruct s; [done | simpl in Hn; lia]. }
  destruct s as [|c rest]; [done|].
  apply Forall_cons in Hs as [Hc Hrest]. simpl in Hn.
  rewrite quote_body_cons. destruct (is_leading_surrogate c) eqn:Hlead.
  - apply andb_true_iff in Hlead as [Hlo _]. apply N.leb_le in Hlo.
    destruct rest as [|d rest'].
    + rewrite read_escape //.
    + destruct (is_trailing_surrogate d) eqn:Htrail.
      * apply andb_true_iff in Htrail as [Hlo' _]. apply N.leb_le in Hlo'.
        apply Forall_cons in Hrest as [Hd Hrest']. simpl in Hn.
        change ((c :: d :: quote_body rest') ++ 34 :: tail)
          with (c :: d :: (quote_body rest' ++ 34 :: tail)).
        rewrite read_surrogate; [lia|]. rewrite read_surrogate; [lia|].
        rewrite IH //. lia.
      * rewrite -app_assoc read_escape //. rewrite IH //. lia.
  - rewrite -app_assoc read_unit //. rewrite IH //. lia.
Qed.

Lemma read_quote_body (s tail : jsstring) :
  well_formed s →
  read_string_body (quote_body s ++ 34 :: tail) = Some (s, tail).
Proof. by apply (read_quote_body_bounded (length s)). Qed.

Lemma read_QuoteJSONString (s tail : jsstring) :
  well_formed s → read_string (QuoteJSONString s ++ tail) = Some (s, tail).
Proof.
  intros H. rewrite /QuoteJSONString /read_string /=.
  rewrite -app_assoc. by apply read_quote_body.
Qed.

(** [JSON.parse(JSON.stringify({ name: value }))[name]] is [value]. *)
Lemma JSON_field_round_trip (name value : jsstring) :
  well_formed name → well_formed value →
  JSON_parse_field name (JSON_stringify_field name value) = Some value.
Proof.
  intros Hname Hvalue.
  rewrite /JSON_parse_field /JSON_stringify_field /QuoteJSONString /read_string.
  rewrite -!app_assoc /=.
  rewrite read_quote_body //=.
  rewrite bool_decide_eq_true_2 //.
  by rewrite read_quote_body.
Qed.

Lemma lit_well_formed (s : string) : well_formed (lit s).
Proof.
  apply Forall_forall. intros c Hc.
  apply list_elem_of_In, in_map_iff in Hc as [a [<- _]].
  rewrite /code_unit. pose proof (N_ascii_bounded a). lia.
Qed.

End Json.

Arguments Js.lit : simpl never.
Arguments Js.trim : simpl never.
Arguments Js.Number_toString : simpl never.
Arguments Js.JSON_stringify_field : simpl never.
Arguments Net.object : simpl never.

(** Running the monad's plumbing, leaving the built-ins folded. *)
Ltac run_eff :=
  rewrite /mbind /Eff.M_bind /mret /Eff.M_ret /Eff.bind /Eff.ret /Eff.throw
    /Eff.modify /Eff.gets /Eff.lift /Eff.of_result /Eff.try_catch
    /Eff.try_finally /=.

(** ** The forwarding gateway *)
Section Gateway.
Import Js Eff Net Server.

Implicit Types (w : World) (st : State) (req m data : JsValue)
  (s url : jsstring) (e : Thrown) (r : Response).

Lemma typeof_string m : typeof m = lit "string" ↔ ∃ s, m = JStr s.
Proof.
  split; [|by intros [s ->]].
  destruct m; try discriminate. by eexists.
Qed.

(** The guard of the handler never throws: it rejects every value but a
    string that keeps a character once trimmed. *)
Lemma message_rejected_decides w m st :
  message_rejected w m st =
  (st, inr match m with
           | JStr s => bool_decide (trim s = [])
           | _ => true
           end).
Proof.
  rewrite /message_rejected.
  destruct (ToBoolean m) eqn:Htruthy; simpl.
  - destruct m; try discriminate; try done.
    rewrite bool_decide_eq_false_2; [by intros H; apply H|].
    run_eff. by rewrite negb_involutive.
  - destruct m; try done.
    apply negb_false_iff, bool_decide_eq_true in Htruthy as ->.
    by rewrite bool_decide_eq_true_2.
Qed.

Lemma accepted_is_truthy s : trim s ≠ [] → ToBoolean (JStr s) = true.
Proof.
  intros H. simpl. rewrite bool_decide_eq_false_2 //.
  intros ->. by apply H.
Qed.

Lemma Invalid_blank m : Invalid m → ∀ s, m = JStr s → trim s = [].
Proof.
  intros [|m' Hm|s Hs] t Ht; [done|by destruct (Hm t)|].
  by injection Ht as <-.
Qed.

(** White space only, the empty string included, is invalid. *)
Lemma Invalid_white s : Forall white s → Invalid (JStr s).
Proof. intros H. by apply invalid_blank, trim_empty. Qed.

(** A message that is not a string with a character left once trimmed:
    one answer, 400, and nothing else. *)
Lemma run_rejected w req m :
  Get req (lit "message") = Some m →
  (∀ s, m = JStr s → trim s = []) →
  run w req =
  ({| statusCode := 400; trace := [Respond 400 message_required] |}, inr tt).
Proof.
  intros Hget Hbad. rewrite /run /handleChat /get_property Hget.
  run_eff. rewrite message_rejected_decides.
  assert (match m with JStr s => bool_decide (trim s = []) | _ => true end = true)
    as ->; [|done].
  destruct m; try done. by rewrite bool_decide_eq_true_2; [apply Hbad|].
Qed.

(** A message that passes the guard reaches the configuration check. *)
Lemma run_accepted w req s :
  Get req (lit "message") = Some (JStr s) → trim s ≠ [] →
  run w req =
  (if negb (ToBoolean (env_value (N8N_WEBHOOK_URL w))) then
     (res_status 500;; res_json not_configured) start
   else
     try_catch
       (response ← fetch w (default [] (N8N_WEBHOOK_URL w)) (forwarded s);
        (if negb (ok response) then throw (status_error response)
         else mret tt);;
        data ← of_result (json response);
        res_json data)
       (λ e,
          emit (ConsoleError (lit "Chat API error:") e);;
          res_status 500;;
          res_json (unreachable e)) start).
Proof.
  intros Hget Hgood. rewrite /run /handleChat /get_property Hget.
  run_eff. rewrite message_rejected_decides bool_decide_eq_false_2 //.
  by destruct (negb (ToBoolean (env_value (N8N_WEBHOOK_URL w)))).
Qed.

Lemma run_not_configured w req s :
  Get req (lit "message") = Some (JStr s) → trim s ≠ [] →
  ToBoolean (env_value (N8N_WEBHOOK_URL w)) = false →
  run w req =
  ({| statusCode := 500; trace := [Respond 500 not_configured] |}, inr tt).
Proof.
  intros Hget Hgood Henv. by rewrite (run_accepted _ _ s) // Henv.
Qed.

Lemma run_configured w req s url :
  Get req (lit "message") = Some (JStr s) → trim s ≠ [] →
  N8N_WEBHOOK_URL w = Some url → url ≠ [] →
  run w req =
  match network w url (forwarded s) with
  | Rejects e => failed url s e
  | Resolves r =>
      if ok r then
        match json r with
        | inr data =>
            ({| statusCode := 200;
                trace := [Fetch url (forwarded s); Respond 200 data] |}, inr tt)
        | inl e => failed url s e
        end
      else failed url s (status_error r)
  end.
Proof.
  intros Hget Hgood Hurl Hne. rewrite (run_accepted _ _ s) // Hurl /=.
  rewrite bool_decide_eq_false_2 //=.
  rewrite /fetch. run_eff.
  destruct (network w url (forwarded s)) as [e|r]; [done|].
  simpl. destruct (ok r); [|done].
  simpl. by destruct (json r).
Qed.

Lemma run_failed w req s url e :
  Get req (lit "message") = Some (JStr s) → trim s ≠ [] →
  N8N_WEBHOOK_URL w = Some url → url ≠ [] →
  Fails status_error (network w url (forwarded s)) e →
  run w req = failed url s e.
Proof.
  intros Hget Hgood Hurl Hne Hfail. rewrite (run_configured _ _ s url) //.
  destruct Hfail as [e -> | r -> Hok | r e -> Hok Hjson]; [done| |].
  - by rewrite Hok.
  - by rewrite Hok Hjson.
Qed.

(** C1. For a valid request (a string message with a character left once
    trimmed, the webhook address configured) the gateway sends exactly one
    request, a JSON POST to the configured address; the string its text
    carries under [query] is the trimmed message; and the trimmed message
    is the message without a run of white space at each end. *)
Theorem forwarded_query_is_trimmed_message w req s url :
  Get req (lit "message") = Some (JStr s) → trim s ≠ [] → well_formed s →
  N8N_WEBHOOK_URL w = Some url → url ≠ [] →
  outbound (trace (run w req).1) = [(url, forwarded s)]
  ∧ forwarded s =
    {| method := lit "POST";
       headers := [(lit "Content-Type", lit "application/json")];
       body := JSON_stringify_field (lit "query") (trim s) |}
  ∧ JSON_parse_field (lit "query") (body (forwarded s)) = Some (trim s)
  ∧ ∃ pre post, s = pre ++ trim s ++ post ∧ Forall white pre ∧ Forall white post.
Proof.
  intros Hget Hgood Hwf Hurl Hne. repeat split.
  - rewrite (run_configured _ _ s url) //.
    destruct (network w url (forwarded s)) as [e|r]; [done|].
    destruct (ok r); [|done]. by destruct (json r).
  - apply JSON_field_round_trip; [apply lit_well_formed|].
    by apply trim_well_formed.
  - apply trim_split.
Qed.

(** C2. For a valid request answered by the webhook with a success status
    and a body that parses, the gateway answers once, with status 200 and
    the parsed body as it is, whatever fields it has. *)
Theorem success_body_passes_through w req s url r data :
  Get req (lit "message") = Some (JStr s) → trim s ≠ [] →
  N8N_WEBHOOK_URL w = Some url → url ≠ [] →
  network w url (forwarded s) = Resolves r → ok r = true → json r = inr data →
  run w req =
  ({| statusCode := 200;
      trace := [Fetch url (forwarded s); Respond 200 data] |}, inr tt)
  ∧ responses (trace (run w req).1) = [(200, data)].
Proof.
  intros Hget Hgood Hurl Hne Hnet Hok Hjson.
  by rewrite (run_configured _ _ s url) // Hnet Hok Hjson.
Qed.

(** X26. A request with a body (anything but [undefined] and [null],
    so that [message] can be read off it) whose [message] is missing, is
    not a string, or is empty once trimmed is answered once, with status
    400 and [{ error: "Message is required" }], and nothing is sent to
    the webhook. *)
Theorem invalid_message_is_refused w req m :
  Get req (lit "message") = Some m →
  Invalid m →
  run w req =
  ({| statusCode := 400;
      trace := [Respond 400
                  (object [(lit "error", JStr (lit "Message is required"))])] |},
   inr tt)
  ∧ outbound (trace (run w req).1) = [].
Proof.
  intros Hget Hbad. rewrite (run_rejected _ _ m) //.
  by apply Invalid_blank.
Qed.

(** C4. For a valid request whose outbound call throws, whose answer has
    a status that is not a success, or whose body does not parse, the
    gateway logs the failure and answers once, with status 500 and
    [{ error, message }]: [error] is the failure's own message when it
    is an [Error], [message] is the fixed sentence. *)
Theorem upstream_failure_is_reported w req s url e :
  Get req (lit "message") = Some (JStr s) → trim s ≠ [] →
  N8N_WEBHOOK_URL w = Some url → url ≠ [] →
  Fails status_error (network w url (forwarded s)) e →
  run w req =
  ({| statusCode := 500;
      trace :=
        [Fetch url (forwarded s);
         ConsoleError (lit "Chat API error:") e;
         Respond 500
           (object
              [(lit "error",
                JStr (message_or (lit "Failed to process your message") e));
               (lit "message",
                JStr (lit
                  "Unable to reach the chat service. Please try again later."))])] |},
   inr tt)
  ∧ logged (trace (run w req).1) = [(lit "Chat API error:", e)].
Proof.
  intros Hget Hgood Hurl Hne Hfail. by rewrite (run_failed _ _ s url e).
Qed.

(** C6. With the webhook address absent from the environment, a request
    with a valid message is answered once, with status 500 and an [error]
    that names the missing setting, and nothing is sent to the webhook. *)
Theorem missing_address_is_reported w req s :
  N8N_WEBHOOK_URL w = None →
  Get req (lit "message") = Some (JStr s) → trim s ≠ [] →
  run w req =
  ({| statusCode := 500;
      trace := [Respond 500
        (object [(lit "error", JStr (lit
          "N8N_WEBHOOK_URL is not configured. Please set it in your environment variables."))])] |},
   inr tt)
  ∧ outbound (trace (run w req).1) = [].
Proof.
  intros Henv Hget Hgood. rewrite (run_not_configured _ _ s) //.
  by rewrite Henv.
Qed.

(** An address set to the empty string counts as absent. *)
Lemma empty_address_is_reported w req s :
  N8N_WEBHOOK_URL w = Some [] →
  Get req (lit "message") = Some (JStr s) → trim s ≠ [] →
  run w req =
  ({| statusCode := 500; trace := [Respond 500 not_configured] |}, inr tt).
Proof.
  intros Henv Hget Hgood. rewrite (run_not_configured _ _ s) //.
  by rewrite Henv.
Qed.

(** C7. With no request body at all ([req.body] is [undefined], or
    [null]) the handler's promise rejects with the [TypeError] of the
    destructuring, before the [try]: nothing is sent, logged or
    answered. *)
Theorem absent_body_is_not_answered w :
  run w JUndefined =
    (start, inl (ThrowError (type_error w JUndefined (lit "message"))))
  ∧ run w JNull =
    (start, inl (ThrowError (type_error w JNull (lit "message"))))
  ∧ responses (trace (run w JUndefined).1) = []
  ∧ responses (trace (run w JNull).1) = [].
Proof. done. Qed.

(** Every body that can be destructured is answered exactly once, with
    200, 400 or 500, and the handler's promise resolves. *)
Lemma present_body_is_answered_once w req :
  req ≠ JUndefined → req ≠ JNull →
  ∃ st code answer,
    run w req = (st, inr tt)
    ∧ responses (trace st) = [(code, answer)]
    ∧ (code = 200 ∨ code = 400 ∨ code = 500).
Proof.
  intros Hu Hn.
  assert (∃ m, Get req (lit "message") = Some m) as [m Hget].
  { destruct req; try done; by eexists. }
  assert ((∃ s, m = JStr s ∧ trim s ≠ []) ∨ (∀ s, m = JStr s → trim s = []))
    as [(s & -> & Hgood)|Hbad].
  { destruct m; try (right; by intros ? [=]).
    destruct (decide (trim s = [])); [right; by intros ? [= <-] | left; eauto]. }
  - destruct (ToBoolean (env_value (N8N_WEBHOOK_URL w))) eqn:Henv.
    + destruct (N8N_WEBHOOK_URL w) as [url|] eqn:Hurl; [|done].
      assert (url ≠ []) as Hne.
      { intros ->. done. }
      rewrite (run_configured _ _ s url) //.
      destruct (network w url (forwarded s)) as [e|r];
        [rewrite /failed; naive_solver|].
      destruct (ok r); [|rewrite /failed; naive_solver].
      destruct (json r); rewrite /failed; naive_solver.
    + rewrite (run_not_configured _ _ s) //. naive_solver.
  - rewrite (run_rejected _ _ m) //. naive_solver.
Qed.

(** X27. On a request with a body the message is checked before the
    configuration: with the webhook address unset as well, a [message]
    that is missing, is not a string, or is empty once trimmed is still
    answered 400 with [{ error: "Message is required" }], and never with
    the configuration error. *)
Theorem validation_precedes_configuration w req m :
  N8N_WEBHOOK_URL w = None →
  Get req (lit "message") = Some m →
  Invalid m →
  responses (trace (run w req).1) =
    [(400, object [(lit "error", JStr (lit "Message is required"))])]
  ∧ ∀ code, (code, not_configured) ∉ responses (trace (run w req).1).
Proof.
  intros _ Hget Hbad. rewrite (run_rejected _ _ m) //; [by apply Invalid_blank|].
  split; [done|].
  intros code Hin. apply list_elem_of_singleton in Hin.
  apply (f_equal (λ p, Get p.2 (lit "error"))) in Hin.
  vm_compute in Hin. discriminate.
Qed.

(** C3. At a request without a body the [message] is missing and yet
    there is no 400: the destructuring throws before the guard, the
    handler's promise rejects and nothing is answered, so "every request
    whose message is missing gets 400" fails there. *)
Theorem missing_message_without_body_is_not_refused w :
  Get JUndefined (lit "message") = None
  ∧ Invalid (requested JUndefined)
  ∧ run w JUndefined =
      (start, inl (ThrowError (type_error w JUndefined (lit "message"))))
  ∧ responses (trace (run w JUndefined).1) ≠ [(400, message_required)]
  ∧ Invalid (requested JNull)
  ∧ responses (trace (run w JNull).1) ≠ [(400, message_required)]
  ∧ ¬ (∀ req, Invalid (requested req) →
         responses (trace (run w req).1) = [(400, message_required)]).
Proof.
  split; [done|]. split; [apply invalid_missing|]. split; [done|].
  split; [discriminate|]. split; [apply invalid_missing|].
  split; [discriminate|].
  intros Hall. by specialize (Hall JUndefined invalid_missing).
Qed.

(** C9. With the webhook address unset and no request body, the
    [message] is missing and the gateway answers neither 400 nor
    anything else: the order of the two checks is not reached. *)
Theorem missing_message_without_body_or_address_is_not_refused w :
  N8N_WEBHOOK_URL w = None →
  Invalid (requested JUndefined)
  ∧ (run w JUndefined).2 =
      inl (ThrowError (type_error w JUndefined (lit "message")))
  ∧ responses (trace (run w JUndefined).1) = []
  ∧ ∀ answer, (400, answer) ∉ responses (trace (run w JUndefined).1).
Proof.
  intros _. split; [apply invalid_missing|]. split; [done|].
  split; [done|]. intros answer Hin. by apply elem_of_nil in Hin.
Qed.

End Gateway.

(** ** The client bridge *)
Section Bridge.
Import Js Eff Net Client.

Implicit Types (w : World) (st : State) (ui : ChatState) (data v : JsValue)
  (text : jsstring) (e : Thrown) (r : Response).

(** On any body but [null] the selection reads no field that throws and
    takes the first field that is present and truthy. *)
Lemma botReply_selects w data st :
  data ≠ JUndefined → data ≠ JNull →
  botReply w data st = (st, inr (truthy_first data)).
Proof.
  intros Hu Hn. rewrite /botReply /get_property /truthy_first /field.
  destruct data as [| | b | x | s | vs | o]; try done.
  run_eff. destruct (o !! lit "reply") as [reply|]; simpl.
  - destruct (ToBoolean reply); [done|].
    destruct (o !! lit "message") as [message|]; [|done].
    rewrite /or_else /=. by destruct (ToBoolean message).
  - destruct (o !! lit "message") as [message|]; [|done].
    rewrite /or_else /=. by destruct (ToBoolean message).
Qed.

Lemma botReply_null w st :
  botReply w JNull st = (st, inl (ThrowError (type_error w JNull (lit "reply")))).
Proof. done. Qed.

(** The effects of a submission, by what the gateway does. *)
Lemma submit_empty w ui :
  trim (input ui) = [] → submit w ui = [PreventDefault].
Proof.
  intros H. rewrite /submit /sendMessage. run_eff. by rewrite H.
Qed.

Lemma submit_cases w ui :
  trim (input ui) ≠ [] →
  submit w ui =
  match network w (lit "/api/chat") (posted (input ui)) with
  | Rejects e => failure w (input ui) e
  | Resolves r =>
      if ok r then
        match json r with
        | inl e => failure w (input ui) e
        | inr data =>
            match Get data (lit "reply") with
            | Some _ => success w (input ui) (truthy_first data)
            | None =>
                failure w (input ui)
                  (ThrowError (type_error w data (lit "reply")))
            end
        end
      else failure w (input ui) (status_error r)
  end.
Proof.
  intros Hgood. rewrite /submit /sendMessage /fetch /now. run_eff.
  rewrite bool_decide_eq_false_2 //=.
  fold (posted (input ui)).
  destruct (network w (lit "/api/chat") (posted (input ui))) as [e|r]; [done|].
  simpl. destruct (ok r); [|done].
  simpl. destruct (json r) as [e|data]; [done|].
  simpl. destruct (Get data (lit "reply")) eqn:Hget.
  - rewrite botReply_selects; [by intros ->..|]. done.
  - rewrite /botReply /get_property Hget. done.
Qed.

Lemma submit_failed w ui e :
  trim (input ui) ≠ [] →
  Fails status_error (network w (lit "/api/chat") (posted (input ui))) e →
  submit w ui = failure w (input ui) e.
Proof.
  intros Hgood Hfail. rewrite submit_cases //.
  destruct Hfail as [e -> | r -> Hok | r e -> Hok Hjson]; [done| |].
  - by rewrite Hok.
  - by rewrite Hok Hjson.
Qed.

(** The handler's own promise always resolves. *)
Lemma sendMessage_resolves w text : (sendMessage w text start).2 = inr tt.
Proof.
  destruct (decide (trim text = [])) as [Hblank|Hgood].
  - rewrite /sendMessage. run_eff. by rewrite Hblank.
  - rewrite /sendMessage /fetch /now. run_eff.
    rewrite bool_decide_eq_false_2 //=.
    destruct (network w _ _) as [e|r]; [done|].
    simpl. destruct (ok r); [|done].
    simpl. destruct (json r) as [e|data]; [done|].
    simpl. by destruct (botReply w data _) as [st [e|v]].
Qed.

Lemma render_failure w ui e :
  render ui (failure w (input ui) e) =
  {| messages := messages ui ++ [user_entry w (input ui)];
     input := [];
     isLoading := false;
     error := Some (message_or (lit "Failed to send message") e) |}.
Proof. done. Qed.

Lemma render_success w ui v :
  render ui (success w (input ui) v) =
  {| messages := (messages ui ++ [user_entry w (input ui)]) ++ [bot_entry w v];
     input := [];
     isLoading := false;
     error := None |}.
Proof. done. Qed.

(** Whatever the gateway does, a submission opens the same way and sends
    nothing more after its request. *)
Lemma submit_opening w ui :
  trim (input ui) ≠ [] →
  ∃ rest, submit w ui = opening w (input ui) ++ rest ∧ requests rest = [].
Proof.
  intros Hgood. rewrite submit_cases //.
  destruct (network w (lit "/api/chat") (posted (input ui))) as [e|r];
    [by eexists|].
  destruct (ok r); [|by eexists].
  destruct (json r) as [e|data]; [by eexists|].
  destruct (Get data (lit "reply")); by eexists.
Qed.

(** C5 (amended). For a submission answered with a success whose body
    parses to anything but [null], the bridge appends, after the user
    entry, one bot entry whose text is the [reply] field if it is present
    and truthy (for a string: not empty), else the [message] field if it
    is present and truthy, else "No response from bot". *)
Theorem bot_text_is_first_truthy_field w ui r data :
  trim (input ui) ≠ [] →
  network w (lit "/api/chat") (posted (input ui)) = Resolves r →
  ok r = true → json r = inr data →
  data ≠ JUndefined → data ≠ JNull →
  messages (settled w ui) =
    messages ui ++ [user_entry w (input ui); bot_entry w (truthy_first data)]
  ∧ text (bot_entry w (truthy_first data)) =
    match usable (field data (lit "reply")) with
    | Some reply => reply
    | None =>
        match usable (field data (lit "message")) with
        | Some message => message
        | None => JStr (lit "No response from bot")
        end
    end.
Proof.
  intros Hgood Hnet Hok Hjson Hu Hn. split; [|done].
  rewrite /settled submit_cases // Hnet Hok Hjson.
  assert (∃ v, Get data (lit "reply") = Some v) as [v ->].
  { destruct data; try done; by eexists. }
  by rewrite render_success -app_assoc.
Qed.

(** A string field is taken exactly when it is not empty. *)
Lemma truthy_first_reply data s :
  field data (lit "reply") = Some (JStr s) → s ≠ [] →
  truthy_first data = JStr s.
Proof.
  intros Hr Hs. rewrite /truthy_first Hr /=.
  by rewrite bool_decide_eq_false_2.
Qed.

Lemma truthy_first_message data s :
  usable (field data (lit "reply")) = None →
  field data (lit "message") = Some (JStr s) → s ≠ [] →
  truthy_first data = JStr s.
Proof.
  intros Hr Hm Hs. rewrite /truthy_first Hr Hm /=.
  by rewrite bool_decide_eq_false_2.
Qed.

Lemma truthy_first_neither data :
  usable (field data (lit "reply")) = None →
  usable (field data (lit "message")) = None →
  truthy_first data = JStr (lit "No response from bot").
Proof. intros Hr Hm. by rewrite /truthy_first Hr Hm. Qed.

(** Where both fields are absent, or the first present one is truthy,
    presence and truthiness select the same text. *)
Lemma truthy_first_present_first data :
  (∀ v, field data (lit "reply") = Some v → ToBoolean v = true) →
  (field data (lit "reply") = None →
   ∀ v, field data (lit "message") = Some v → ToBoolean v = true) →
  truthy_first data = present_first data.
Proof.
  intros Hr Hm. rewrite /truthy_first /present_first.
  destruct (field data (lit "reply")) as [reply|]; simpl.
  - by rewrite (Hr reply).
  - destruct (field data (lit "message")) as [message|]; [|done].
    simpl. by rewrite (Hm eq_refl message).
Qed.

(** C8. For a submission whose request fails (the call rejects, the
    status is not a success, or the body does not parse) the error slot
    holds the failure's message, whatever it held before; the transcript
    gains the user entry and no bot entry; and the loading flag is down,
    as it is after every submission that sends a request. *)
Theorem failed_exchange_records_error w ui :
  trim (input ui) ≠ [] →
  isLoading (settled w ui) = false
  ∧ ∀ e,
      Fails status_error (network w (lit "/api/chat") (posted (input ui))) e →
      error (settled w ui) =
        Some (message_or (lit "Failed to send message") e)
      ∧ messages (settled w ui) = messages ui ++ [user_entry w (input ui)]
      ∧ bot_entries (messages (settled w ui)) = bot_entries (messages ui).
Proof.
  intros Hgood. split.
  - rewrite /settled submit_cases //.
    destruct (network w (lit "/api/chat") (posted (input ui))) as [e|r];
      [done|].
    destruct (ok r); [|done].
    destruct (json r) as [e|data]; [done|].
    by destruct (Get data (lit "reply")).
  - intros e Hfail. rewrite /settled (submit_failed w ui e) // render_failure /=.
    repeat split. rewrite /bot_entries List.filter_app /=. apply app_nil_r.
Qed.

(** C10. A submission with a character left once trimmed appends the
    user entry, carrying the input as typed, and empties the input field
    before its one request goes out; when the request then fails the
    entry is still in the transcript and the field is still empty, so
    the typed text is not back in it. *)
Theorem failed_submission_keeps_entry_and_empty_input w ui :
  trim (input ui) ≠ [] →
  before_request (submit w ui) =
    [PreventDefault;
     SetMessages {| id := Number_toString (clock w 0); text := JStr (input ui);
                    sender := user; timestamp := clock w 1 |};
     SetInput []; SetError None; SetIsLoading true]
  ∧ requests (submit w ui) = [(lit "/api/chat", posted (input ui))]
  ∧ messages (render ui (before_request (submit w ui))) =
      messages ui ++ [user_entry w (input ui)]
  ∧ input (render ui (before_request (submit w ui))) = []
  ∧ ∀ e,
      Fails status_error (network w (lit "/api/chat") (posted (input ui))) e →
      messages (settled w ui) = messages ui ++ [user_entry w (input ui)]
      ∧ input (settled w ui) = []
      ∧ input (settled w ui) ≠ input ui.
Proof.
  intros Hgood.
  destruct (submit_opening w ui Hgood) as (rest & Hsubmit & Hrest).
  rewrite Hsubmit. split; [done|]. split; [|split; [done|split; [done|]]].
  - rewrite /requests omap_app. fold (requests rest). by rewrite Hrest.
  - intros e Hfail.
    rewrite /settled (submit_failed w ui e) // render_failure /=.
    split; [done|]. split; [done|].
    intros Hempty. apply Hgood. by rewrite -Hempty.
Qed.

End Bridge.

(** ** The properties at concrete requests *)
Section Worked.
Import Js Eff Net Examples.

Lemma forwarded_query_is_trimmed_message_witness :
  Server.outbound
    (Server.trace
       (Server.run (gateway (Some webhook) (Resolves (answers 200 (lit "OK") hi_there)))
          (says hello)).1)
  = [(webhook, post_json (JSON_stringify_field (lit "query") (lit "Hello")))]
  ∧ JSON_parse_field (lit "query") (body (Server.forwarded hello))
    = Some (lit "Hello").
Proof.
  destruct (forwarded_query_is_trimmed_message
              (gateway (Some webhook) (Resolves (answers 200 (lit "OK") hi_there)))
              (says hello) hello webhook) as (Hsent & _ & Hread & _).
  - vm_compute. reflexivity.
  - vm_compute. discriminate.
  - apply lit_well_formed.
  - reflexivity.
  - vm_compute. discriminate.
  - split; [exact Hsent | exact Hread].
Defined.

Lemma success_body_passes_through_witness :
  Server.run (gateway (Some webhook) (Resolves (answers 200 (lit "OK") hi_there)))
    (says hello)
  = ({| Server.statusCode := 200;
        Server.trace := [Server.Fetch webhook (Server.forwarded hello);
                         Server.Respond 200 hi_there] |}, inr tt).
Proof.
  apply (success_body_passes_through
           (gateway (Some webhook) (Resolves (answers 200 (lit "OK") hi_there)))
           (says hello) hello webhook (answers 200 (lit "OK") hi_there) hi_there).
  - vm_compute. reflexivity.
  - vm_compute. discriminate.
  - reflexivity.
  - vm_compute. discriminate.
  - reflexivity.
  - reflexivity.
  - reflexivity.
Defined.

Lemma invalid_message_is_refused_witness :
  Server.responses
    (Server.trace
       (Server.run (gateway (Some webhook) (Resolves (answers 200 (lit "OK") hi_there)))
          (says (lit "   "))).1)
  = [(400, Server.message_required)]
  ∧ Server.outbound
      (Server.trace
         (Server.run (gateway (Some webhook) (Resolves (answers 200 (lit "OK") hi_there)))
            (says (lit "   "))).1)
    = [].
Proof.
  destruct (invalid_message_is_refused
              (gateway (Some webhook) (Resolves (answers 200 (lit "OK") hi_there)))
              (says (lit "   ")) (JStr (lit "   "))) as [Hrun Hout].
  - vm_compute. reflexivity.
  - apply Server.invalid_blank. vm_compute. reflexivity.
  - split; [by rewrite Hrun | exact Hout].
Defined.

Lemma upstream_failure_is_reported_witness :
  Server.responses
    (Server.trace
       (Server.run (gateway (Some webhook) (Resolves unavailable)) (says hello)).1)
  = [(500,
      object
        [(lit "error",
          JStr (lit "n8n webhook returned status 503: Service Unavailable"));
         (lit "message",
          JStr (lit "Unable to reach the chat service. Please try again later."))])].
Proof.
  destruct (upstream_failure_is_reported
              (gateway (Some webhook) (Resolves unavailable))
              (says hello) hello webhook (Server.status_error unavailable))
    as [Hrun _].
  - vm_compute. reflexivity.
  - vm_compute. discriminate.
  - reflexivity.
  - vm_compute. discriminate.
  - by apply (fails_status _ _ unavailable).
  - by rewrite Hrun.
Defined.

Lemma missing_address_is_reported_witness :
  Server.run (gateway None (Resolves (answers 200 (lit "OK") hi_there))) (says hello)
  = ({| Server.statusCode := 500;
        Server.trace := [Server.Respond 500 Server.not_configured] |}, inr tt).
Proof.
  apply (missing_address_is_reported
           (gateway None (Resolves (answers 200 (lit "OK") hi_there)))
           (says hello) hello).
  - reflexivity.
  - vm_compute. reflexivity.
  - vm_compute. discriminate.
Defined.

Lemma validation_precedes_configuration_witness :
  Server.responses
    (Server.trace (Server.run (gateway None (Rejects (ThrowValue JNull))) (JNum 7)).1)
  = [(400, Server.message_required)].
Proof.
  apply (validation_precedes_configuration
           (gateway None (Rejects (ThrowValue JNull))) (JNum 7) JUndefined).
  - reflexivity.
  - reflexivity.
  - apply Server.invalid_missing.
Defined.

Lemma missing_message_without_body_or_address_is_not_refused_witness :
  Server.Invalid (Server.requested JUndefined)
  ∧ Server.responses
      (Server.trace
         (Server.run (gateway None (Resolves (answers 200 (lit "OK") hi_there)))
            JUndefined).1)
    = [].
Proof.
  destruct (missing_message_without_body_or_address_is_not_refused
              (gateway None (Resolves (answers 200 (lit "OK") hi_there))))
    as (Hmissing & _ & Hnone & _).
  - reflexivity.
  - split; [exact Hmissing | exact Hnone].
Defined.

(** C5, as stated, fails on a body whose [reply] is present and empty:
    the selection by presence gives the empty string, the bridge shows
    the [message] field. *)
Lemma empty_reply_is_passed_over :
  Client.field empty_reply (lit "reply") = Some (JStr [])
  ∧ Client.present_first empty_reply = JStr []
  ∧ Client.text <$>
      Client.messages
        (Client.settled (browser (Resolves (answers 200 (lit "OK") empty_reply)))
           (typed hello))
    = [JStr hello; JStr (lit "Hi")]
  ∧ Client.messages
      (Client.settled (browser (Resolves (answers 200 (lit "OK") empty_reply)))
         (typed hello))
    ≠ Client.messages (typed hello)
      ++ [Client.user_entry (browser (Resolves (answers 200 (lit "OK") empty_reply))) hello;
          Client.bot_entry (browser (Resolves (answers 200 (lit "OK") empty_reply)))
            (Client.present_first empty_reply)].
Proof.
  split; [by vm_compute|]. split; [by vm_compute|]. split; [by vm_compute|].
  intros H. apply (f_equal (fmap Client.text)) in H.
  vm_compute in H. discriminate H.
Qed.

Lemma bot_text_is_first_truthy_field_witness :
  Client.messages
    (Client.settled (browser (Resolves (answers 200 (lit "OK") hi_as_message)))
       (typed hello))
  = [Client.user_entry (browser (Resolves (answers 200 (lit "OK") hi_as_message))) hello;
     Client.bot_entry (browser (Resolves (answers 200 (lit "OK") hi_as_message)))
       (JStr (lit "Hi"))].
Proof.
  destruct (bot_text_is_first_truthy_field
              (browser (Resolves (answers 200 (lit "OK") hi_as_message)))
              (typed hello) (answers 200 (lit "OK") hi_as_message) hi_as_message)
    as [Hshown _].
  - vm_compute. discriminate.
  - reflexivity.
  - reflexivity.
  - reflexivity.
  - discriminate.
  - discriminate.
  - exact Hshown.
Defined.

Lemma failed_exchange_records_error_witness :
  Client.isLoading (Client.settled (browser (Resolves unavailable)) (typed hello)) = false
  ∧ Client.error (Client.settled (browser (Resolves unavailable)) (typed hello))
    = Some (lit "API error: Service Unavailable").
Proof.
  destruct (failed_exchange_records_error (browser (Resolves unavailable)) (typed hello))
    as [Hloading Hfailed].
  - vm_compute. discriminate.
  - split; [exact Hloading|].
    destruct (Hfailed (Client.status_error unavailable)) as [Herror _].
    + by apply (fails_status _ _ unavailable).
    + exact Herror.
Defined.

Lemma failed_submission_keeps_entry_and_empty_input_witness :
  Client.requests (Client.submit (browser (Resolves unavailable)) (typed hello))
  = [(lit "/api/chat", Client.posted hello)]
  ∧ Client.input (Client.settled (browser (Resolves unavailable)) (typed hello)) = [].
Proof.
  destruct (failed_submission_keeps_entry_and_empty_input
              (browser (Resolves unavailable)) (typed hello))
    as (_ & Hsent & _ & _ & Hfailed).
  - vm_compute. discriminate.
  - split; [exact Hsent|].
    destruct (Hfailed (Client.status_error unavailable)) as (_ & Hinput & _).
    + by apply (fails_status _ _ unavailable).
    + exact Hinput.
Defined.

End Worked.

(** ** More on the gateway: what it answers, sends and logs *)
Section GatewayTable.
Import Js Eff Net Server Examples.

Implicit Types (w : World) (st : State) (req m data : JsValue)
  (s url : jsstring) (e : Thrown) (r : Response).

(** A request body is destructured or the handler stops at once. *)
Lemma run_uncoercible w req :
  Get req (lit "message") = None →
  run w req = (start, inl (ThrowError (type_error w req (lit "message")))).
Proof.
  intros Hget. by rewrite /run /handleChat /get_property Hget.
Qed.

Lemma valid_or_Invalid m :
  (∃ s, m = JStr s ∧ trim s ≠ []) ∨ Invalid m.
Proof.
  destruct m; try (right; by apply invalid_type).
  destruct (decide (trim s = [])); [right; by apply invalid_blank|left; eauto].
Qed.

Lemma configured_or_not w :
  (∃ url, N8N_WEBHOOK_URL w = Some url ∧ url ≠ [])
  ∨ ToBoolean (env_value (N8N_WEBHOOK_URL w)) = false.
Proof.
  destruct (N8N_WEBHOOK_URL w) as [[|c url]|]; [by right| |by right].
  left. by eexists.
Qed.

(** The four ways a destructured request ends. *)
Lemma run_table w req m :
  Get req (lit "message") = Some m →
  (Invalid m ∧
   run w req =
   ({| statusCode := 400; trace := [Respond 400 message_required] |}, inr tt))
  ∨ (∃ s, m = JStr s ∧ trim s ≠ [] ∧
       ToBoolean (env_value (N8N_WEBHOOK_URL w)) = false ∧
       run w req =
       ({| statusCode := 500; trace := [Respond 500 not_configured] |}, inr tt))
  ∨ (∃ s url r data, m = JStr s ∧ trim s ≠ [] ∧
       N8N_WEBHOOK_URL w = Some url ∧ url ≠ [] ∧
       network w url (forwarded s) = Resolves r ∧ ok r = true ∧
       json r = inr data ∧
       run w req =
       ({| statusCode := 200;
           trace := [Fetch url (forwarded s); Respond 200 data] |}, inr tt))
  ∨ (∃ s url e, m = JStr s ∧ trim s ≠ [] ∧
       N8N_WEBHOOK_URL w = Some url ∧ url ≠ [] ∧
       Fails status_error (network w url (forwarded s)) e ∧
       run w req = failed url s e).
Proof.
  intros Hget. destruct (valid_or_Invalid m) as [(s & -> & Hgood)|Hbad].
  2: { left. split; [done|]. apply (run_rejected _ _ m); [done|].
       by apply Invalid_blank. }
  right. destruct (configured_or_not w) as [(url & Hurl & Hne)|Henv].
  2: { left. exists s. by rewrite (run_not_configured _ _ s). }
  right. rewrite (run_configured _ _ s url) //.
  destruct (network w url (forwarded s)) as [e|r] eqn:Hnet.
  { right. exists s, url, e. repeat split; try done. by apply fails_call. }
  destruct (ok r) eqn:Hok.
  2: { right. exists s, url, (status_error r). repeat split; try done.
       by apply (fails_status _ _ r). }
  destruct (json r) as [e|data] eqn:Hjson.
  - right. exists s, url, e. repeat split; try done.
    by apply (fails_parse _ _ r).
  - left. by exists s, url, r, data.
Qed.

(** A valid message is not an invalid one. *)
Lemma Invalid_not_valid s : trim s ≠ [] → ¬ Invalid (JStr s).
Proof. intros Hgood Hbad. by apply Hgood, (Invalid_blank (JStr s)). Qed.

(** The exchange either fails or succeeds, never both. *)
Lemma Fails_not_success (o : FetchOutcome) e r data :
  Fails status_error o e → o = Resolves r → ok r = true → json r = inr data →
  False.
Proof.
  intros [e' -> | r' -> Hok' | r' e' -> Hok' Hjson'] Ho Hok Hjson;
    [done| |]; injection Ho as ->; congruence.
Qed.

(** X1. Whatever body can be destructured (anything but [undefined] and
    [null]), the handler's promise resolves and the answer is its last
    effect: exactly one response, with status 200, 400 or 500, after
    which nothing is sent or logged. *)
Theorem answer_is_the_last_effect w req :
  req ≠ JUndefined → req ≠ JNull →
  ∃ st before code answer,
    run w req = (st, inr tt)
    ∧ trace st = before ++ [Respond code answer]
    ∧ responses before = []
    ∧ statusCode st = code
    ∧ (code = 200 ∨ code = 400 ∨ code = 500).
Proof.
  intros Hu Hn.
  assert (∃ m, Get req (lit "message") = Some m) as [m Hget].
  { destruct req; try done; by eexists. }
  destruct (run_table w req m Hget)
    as [[_ ->] | [(s & _ & _ & _ & ->) | [(s & url & r & data & Hrun)
        | (s & url & e & _ & _ & _ & _ & _ & ->)]]].
  - exists {| statusCode := 400; trace := [Respond 400 message_required] |},
      [], 400, message_required. naive_solver.
  - exists {| statusCode := 500; trace := [Respond 500 not_configured] |},
      [], 500, not_configured. naive_solver.
  - destruct Hrun as (_ & _ & _ & _ & _ & _ & _ & ->).
    exists {| statusCode := 200;
              trace := [Fetch url (forwarded s); Respond 200 data] |},
      [Fetch url (forwarded s)], 200, data. naive_solver.
  - eexists _, [Fetch url (forwarded s); ConsoleError (lit "Chat API error:") e],
      500, (unreachable e). rewrite /failed. naive_solver.
Qed.

Lemma answer_is_the_last_effect_witness :
  ∃ st before code answer,
    run (gateway None (Rejects (ThrowValue JNull))) (JArr []) = (st, inr tt)
    ∧ trace st = before ++ [Respond code answer]
    ∧ responses before = []
    ∧ statusCode st = code
    ∧ (code = 200 ∨ code = 400 ∨ code = 500).
Proof.
  apply (answer_is_the_last_effect (gateway None (Rejects (ThrowValue JNull)))
           (JArr [])).
  - discriminate.
  - discriminate.
Defined.

(** X2. The handler calls the webhook at most once, and it calls it
    exactly when the message is a string with a character left once
    trimmed and the address is set and not empty; the call then goes to
    that address and carries the trimmed message. *)
Theorem webhook_is_called_only_for_a_valid_configured_request w req :
  (length (outbound (trace (run w req).1)) ≤ 1)%nat
  ∧ (outbound (trace (run w req).1) ≠ [] ↔
     ∃ s url, Get req (lit "message") = Some (JStr s) ∧ trim s ≠ []
              ∧ N8N_WEBHOOK_URL w = Some url ∧ url ≠ [])
  ∧ ∀ call, call ∈ outbound (trace (run w req).1) →
     ∃ s url, Get req (lit "message") = Some (JStr s)
              ∧ N8N_WEBHOOK_URL w = Some url
              ∧ call = (url, forwarded s).
Proof.
  destruct (Get req (lit "message")) as [m|] eqn:Hget.
  2: { rewrite run_uncoercible //=. split; [lia|]. split; [|by intros ? ?%elem_of_nil].
       split; [done|]. by intros (s & url & ? & _). }
  destruct (run_table w req m Hget)
    as [[Hbad ->] | [(s & -> & Hgood & Henv & ->) | [(s & url & r & data & Hrun)
        | (s & url & e & -> & Hgood & Hurl & Hne & _ & ->)]]]; simpl.
  - split; [lia|]. split; [|by intros ? ?%elem_of_nil]. split; [done|].
    intros (s & url & [= ->] & Hgood & _). by destruct (Invalid_not_valid s).
  - split; [lia|]. split; [|by intros ? ?%elem_of_nil]. split; [done|].
    intros (s' & url & _ & _ & Hurl & Hne). rewrite Hurl /= in Henv.
    by apply negb_false_iff, bool_decide_eq_true in Henv.
    
  - destruct Hrun as (-> & Hgood & Hurl & Hne & _ & _ & _ & ->). simpl.
    split; [lia|]. split; [split; [by exists s, url|done]|].
    intros call ->%list_elem_of_singleton. by exists s, url.
  - split; [lia|]. split; [split; [by exists s, url|done]|].
    intros call ->%list_elem_of_singleton. by exists s, url.
Qed.

(** X3. An address set to the empty string is treated as no address:
    a valid message is answered 500 with the configuration error and the
    webhook is not called. *)
Theorem empty_address_is_no_address w req s :
  N8N_WEBHOOK_URL w = Some [] →
  Get req (lit "message") = Some (JStr s) → trim s ≠ [] →
  run w req =
  ({| statusCode := 500;
      trace := [Respond 500
        (object [(lit "error", JStr (lit
          "N8N_WEBHOOK_URL is not configured. Please set it in your environment variables."))])] |},
   inr tt)
  ∧ outbound (trace (run w req).1) = [].
Proof.
  intros Henv Hget Hgood. rewrite (run_not_configured _ _ s) //.
  by rewrite Henv.
Qed.

Lemma empty_address_is_no_address_witness :
  outbound
    (trace (run (gateway (Some []) (Resolves (answers 200 (lit "OK") hi_there)))
              (says hello)).1) = [].
Proof.
  apply (empty_address_is_no_address
           (gateway (Some []) (Resolves (answers 200 (lit "OK") hi_there)))
           (says hello) hello).
  - reflexivity.
  - vm_compute. reflexivity.
  - vm_compute. discriminate.
Defined.

(** X4. The gateway answers 200 in one case only: the message is valid,
    the address is set, and the webhook resolved with a success status
    and a body that parses; the answer is then that body. *)
Theorem status_200_only_from_the_webhook w req data :
  (200, data) ∈ responses (trace (run w req).1) ↔
  ∃ s url r, Get req (lit "message") = Some (JStr s) ∧ trim s ≠ []
             ∧ N8N_WEBHOOK_URL w = Some url ∧ url ≠ []
             ∧ network w url (forwarded s) = Resolves r
             ∧ ok r = true ∧ json r = inr data.
Proof.
  split.
  - destruct (Get req (lit "message")) as [m|] eqn:Hget.
    2: { rewrite run_uncoercible //=. by intros ?%elem_of_nil. }
    destruct (run_table w req m Hget)
      as [[Hbad ->] | [(s & -> & Hgood & Henv & ->) | [(s & url & r & data' & Hrun)
          | (s & url & e & -> & Hgood & Hurl & Hne & _ & ->)]]]; simpl.
    + by intros [=]%list_elem_of_singleton.
    + by intros [=]%list_elem_of_singleton.
    + destruct Hrun as (-> & Hgood & Hurl & Hne & Hnet & Hok & Hjson & ->).
      simpl. intros [= ->]%list_elem_of_singleton. by exists s, url, r.
    + by intros [=]%list_elem_of_singleton.
  - intros (s & url & r & Hget & Hgood & Hurl & Hne & Hnet & Hok & Hjson).
    rewrite (run_configured _ _ s url) // Hnet Hok Hjson /=.
    by apply list_elem_of_singleton.
Qed.

(** X5. The handler logs exactly when a forwarded exchange fails: every
    log entry is "Chat API error:" with the failure of the exchange, and
    every such failure is logged. *)
Theorem log_records_exactly_the_upstream_failures w req label e :
  (label, e) ∈ logged (trace (run w req).1) ↔
  label = lit "Chat API error:"
  ∧ ∃ s url, Get req (lit "message") = Some (JStr s) ∧ trim s ≠ []
             ∧ N8N_WEBHOOK_URL w = Some url ∧ url ≠ []
             ∧ Fails status_error (network w url (forwarded s)) e.
Proof.
  split.
  - destruct (Get req (lit "message")) as [m|] eqn:Hget.
    2: { rewrite run_uncoercible //=. by intros ?%elem_of_nil. }
    destruct (run_table w req m Hget)
      as [[Hbad ->] | [(s & -> & Hgood & Henv & ->) | [(s & url & r & data' & Hrun)
          | (s & url & e' & -> & Hgood & Hurl & Hne & Hfail & ->)]]]; simpl.
    + by intros ?%elem_of_nil.
    + by intros ?%elem_of_nil.
    + destruct Hrun as (_ & _ & _ & _ & _ & _ & _ & ->).
      by intros ?%elem_of_nil.
    + intros [= -> ->]%list_elem_of_singleton. split; [done|]. by exists s, url.
  - intros (-> & s & url & Hget & Hgood & Hurl & Hne & Hfail).
    rewrite (run_failed _ _ s url e) //=. by apply list_elem_of_singleton.
Qed.

(** X6. Only the trimmed text of the message matters: two requests whose
    messages are strings with the same trimmed text are handled alike,
    effect for effect. *)
Theorem white_space_around_the_message_is_ignored w req req' s s' :
  Get req (lit "message") = Some (JStr s) →
  Get req' (lit "message") = Some (JStr s') →
  trim s = trim s' →
  run w req = run w req'.
Proof.
  intros Hget Hget' Hsame.
  destruct (decide (trim s = [])) as [Hblank|Hgood].
  - rewrite (run_rejected _ req (JStr s)) //; [by intros ? [= <-]|].
    rewrite (run_rejected _ req' (JStr s')) //.
    intros ? [= <-]. by rewrite -Hsame.
  - rewrite (run_accepted _ req s) // (run_accepted _ req' s') //;
      [by rewrite -Hsame|].
    by rewrite /forwarded Hsame.
Qed.

Lemma white_space_around_the_message_is_ignored_witness :
  run (gateway (Some webhook) (Resolves unavailable)) (says hello)
  = run (gateway (Some webhook) (Resolves unavailable)) (says (lit "Hello")).
Proof.
  apply (white_space_around_the_message_is_ignored
           (gateway (Some webhook) (Resolves unavailable))
           (says hello) (says (lit "Hello")) hello (lit "Hello")).
  - vm_compute. reflexivity.
  - vm_compute. reflexivity.
  - vm_compute. reflexivity.
Defined.

Lemma object_error_field text (rest : list (jsstring * JsValue)) :
  Get (object ((lit "error", JStr text) :: rest)) (lit "error")
  = Some (JStr text).
Proof.
  rewrite /object /Get. f_equal.
  change (list_to_map ((lit "error", JStr text) :: rest))
    with (<[lit "error" := JStr text]>
            (list_to_map rest : gmap (list N) JsValue)).
  by rewrite lookup_insert_eq.
Qed.

(** X7. Every answer other than 200 is an object whose [error] field is
    a string; the [message] field is there exactly on the answers that
    follow a failed exchange with the webhook. *)
Theorem every_refusal_carries_an_error_string w req code answer :
  (code, answer) ∈ responses (trace (run w req).1) →
  code ≠ 200 →
  (∃ text, Get answer (lit "error") = Some (JStr text))
  ∧ (Get answer (lit "message") ≠ Some JUndefined ↔
     logged (trace (run w req).1) ≠ []).
Proof.
  destruct (Get req (lit "message")) as [m|] eqn:Hget.
  2: { rewrite run_uncoercible //=. by intros ?%elem_of_nil. }
  destruct (run_table w req m Hget)
    as [[Hbad ->] | [(s & -> & Hgood & Henv & ->) | [(s & url & r & data' & Hrun)
        | (s & url & e' & -> & Hgood & Hurl & Hne & Hfail & ->)]]]; simpl.
  - intros [= -> ->]%list_elem_of_singleton _. split.
    + eexists. apply object_error_field.
    + by vm_compute.
  - intros [= -> ->]%list_elem_of_singleton _. split.
    + eexists. apply object_error_field.
    + by vm_compute.
  - destruct Hrun as (_ & _ & _ & _ & _ & _ & _ & ->). simpl.
    by intros [= -> ->]%list_elem_of_singleton.
  - intros [= -> ->]%list_elem_of_singleton _. split.
    + eexists. apply object_error_field.
    + split; [done|]. intros _. rewrite /unreachable /object /Get.
      change (list_to_map (?a :: (?k, ?v) :: ?rest))
        with (<[a.1 := a.2]> (<[k := v]>
                (list_to_map rest : gmap (list N) JsValue))).
      rewrite lookup_insert_ne; [by vm_compute|].
      by rewrite lookup_insert_eq.
Qed.

Lemma every_refusal_carries_an_error_string_witness :
  ∃ text,
    Get (unreachable (status_error unavailable)) (lit "error") = Some (JStr text).
Proof.
  apply (every_refusal_carries_an_error_string
           (gateway (Some webhook) (Resolves unavailable)) (says hello) 500
           (unreachable (status_error unavailable))).
  - vm_compute. apply list_elem_of_singleton. reflexivity.
  - discriminate.
Defined.

(** X8. When the webhook's status is not a success its body is never
    read: two answers with the same status and status text, whatever
    their bodies, leave the same trace. *)
Theorem body_of_a_refused_status_is_not_read w w' req s url r r' :
  Get req (lit "message") = Some (JStr s) → trim s ≠ [] →
  N8N_WEBHOOK_URL w = Some url → N8N_WEBHOOK_URL w' = Some url → url ≠ [] →
  network w url (forwarded s) = Resolves r →
  network w' url (forwarded s) = Resolves r' →
  ok r = false → status r' = status r → statusText r' = statusText r →
  run w req = run w' req.
Proof.
  intros Hget Hgood Hurl Hurl' Hne Hnet Hnet' Hok Hstatus Htext.
  rewrite (run_configured w _ s url) // (run_configured w' _ s url) //.
  rewrite Hnet Hnet' /ok Hstatus. fold (ok r). rewrite Hok.
  by rewrite /status_error Hstatus Htext.
Qed.

Lemma body_of_a_refused_status_is_not_read_witness :
  run (gateway (Some webhook) (Resolves unavailable)) (says hello)
  = run (gateway (Some webhook)
           (Resolves (answers 503 (lit "Service Unavailable") hi_there)))
      (says hello).
Proof.
  apply (body_of_a_refused_status_is_not_read
           (gateway (Some webhook) (Resolves unavailable))
           (gateway (Some webhook)
              (Resolves (answers 503 (lit "Service Unavailable") hi_there)))
           (says hello) hello webhook unavailable
           (answers 503 (lit "Service Unavailable") hi_there)).
  - vm_compute. reflexivity.
  - vm_compute. discriminate.
  - reflexivity.
  - reflexivity.
  - vm_compute. discriminate.
  - reflexivity.
  - reflexivity.
  - reflexivity.
  - reflexivity.
  - reflexivity.
Defined.

End GatewayTable.

(** ** Decimal printing and substring search *)
Section Builtins.
Import Js Screen.

Lemma lit_inj (a b : string) : lit a = lit b → a = b.
Proof.
  rewrite /lit. intros H.
  rewrite -(string_of_list_ascii_of_string a) -(string_of_list_ascii_of_string b).
  f_equal. revert H.
  generalize (list_ascii_of_string a) (list_ascii_of_string b).
  induction l as [|x l IH]; intros [|y l'] H; try done.
  injection H as Hxy Hl. f_equal; [|by apply IH].
  by rewrite -(ascii_N_embedding x) -(ascii_N_embedding y) Hxy.
Qed.

(** Different integers print differently. *)
Lemma Number_toString_inj (a b : Z) :
  Number_toString a = Number_toString b → a = b.
Proof.
  intros H%lit_inj. apply DecimalZ.to_int_inj.
  assert (∀ z, NilZero.int_of_string (NilZero.string_of_int (Z.to_int z))
               = Some (Z.to_int z)) as Hread.
  { intros z. apply NilZero.isi; destruct z; simpl; try discriminate;
      intros [= Hnil]; by apply DecimalPos.Unsigned.to_uint_nonnil in Hnil. }
  apply (f_equal NilZero.int_of_string) in H.
  rewrite !Hread in H. by injection H.
Qed.

Lemma starts_with_spec (needle s : jsstring) :
  starts_with needle s = true ↔ ∃ post, s = needle ++ post.
Proof.
  revert s. induction needle as [|a needle IH]; intros s; simpl.
  - split; [by exists s|done].
  - destruct s as [|b s]; [split; [done|by intros [? ?]]|].
    rewrite andb_true_iff N.eqb_eq IH. split.
    + intros [-> [post ->]]. by exists post.
    + intros [post [= -> ->]]. split; [done|by exists post].
Qed.

(** [includes] finds exactly the strings that have the needle inside. *)
Lemma includes_spec (s needle : jsstring) :
  includes s needle = true ↔ ∃ pre post, s = pre ++ needle ++ post.
Proof.
  induction s as [|c s IH].
  - simpl. rewrite orb_false_r starts_with_spec. split.
    + intros [post ->]. by exists [], post.
    + intros (pre & post & H). symmetry in H.
      apply app_eq_nil in H as [-> H]. apply app_eq_nil in H as [-> ->].
      by exists [].
  - simpl includes. rewrite orb_true_iff starts_with_spec IH. split.
    + intros [[post ->] | (pre & post & ->)]; [by exists [], post|].
      by exists (c :: pre), post.
    + intros ([|c' pre] & post & H); [left; by exists post|].
      right. injection H as -> ->. by exists pre, post.
Qed.

End Builtins.

(** ** More on the bridge: what a submission leaves behind *)
Section BridgeTable.
Import Js Eff Net Client Examples.

Implicit Types (w : World) (st : State) (ui : ChatState) (data v : JsValue)
  (text : jsstring) (e : Thrown) (r : Response).

(** X9. A submission of nothing but white space (or of nothing) does
    nothing beyond [preventDefault]: no request, and every state cell as
    it was. *)
Theorem blank_submission_changes_nothing w ui :
  trim (input ui) = [] →
  submit w ui = [PreventDefault]
  ∧ requests (submit w ui) = []
  ∧ settled w ui = ui.
Proof.
  intros Hblank. rewrite /settled submit_empty //.
Qed.

Lemma blank_submission_changes_nothing_witness :
  settled (browser (Resolves unavailable)) (typed (lit "   "))
  = typed (lit "   ").
Proof.
  apply (blank_submission_changes_nothing (browser (Resolves unavailable))
           (typed (lit "   "))).
  vm_compute. reflexivity.
Defined.

(** A success with a body other than [null] runs the success effects. *)
Lemma submit_succeeded w ui r data :
  trim (input ui) ≠ [] →
  network w (lit "/api/chat") (posted (input ui)) = Resolves r →
  ok r = true → json r = inr data →
  data ≠ JUndefined → data ≠ JNull →
  submit w ui = success w (input ui) (truthy_first data).
Proof.
  intros Hgood Hnet Hok Hjson Hu Hn. rewrite submit_cases // Hnet Hok Hjson.
  by destruct data.
Qed.

(** X10. After a successful exchange (success status, a body other than
    [null] that parses) every cell is known: the transcript has gained
    the user entry and then the bot entry, the input is empty, the
    loading flag is down and an error left by an earlier exchange is
    gone. *)
Theorem successful_exchange_settles w ui r data :
  trim (input ui) ≠ [] →
  network w (lit "/api/chat") (posted (input ui)) = Resolves r →
  ok r = true → json r = inr data →
  data ≠ JUndefined → data ≠ JNull →
  settled w ui =
  {| messages :=
       messages ui ++
       [{| id := Number_toString (clock w 0); text := JStr (input ui);
           sender := user; timestamp := clock w 1 |};
        {| id := Number_toString (clock w 2 + 1); text := truthy_first data;
           sender := bot; timestamp := clock w 3 |}];
     input := [];
     isLoading := false;
     error := None |}.
Proof.
  intros Hgood Hnet Hok Hjson Hu Hn.
  rewrite /settled (submit_succeeded w ui r data) //.
  by rewrite render_success -app_assoc.
Qed.

Lemma successful_exchange_settles_witness :
  error
    (settled (browser (Resolves (answers 200 (lit "OK") hi_there))) (typed hello))
  = None.
Proof.
  rewrite (successful_exchange_settles
             (browser (Resolves (answers 200 (lit "OK") hi_there)))
             (typed hello) (answers 200 (lit "OK") hi_there) hi_there).
  - vm_compute. discriminate.
  - reflexivity.
  - reflexivity.
  - reflexivity.
  - discriminate.
  - discriminate.
  - reflexivity.
Defined.

(** X11. A success whose body is the JSON value [null] ends as a
    failure: reading [reply] throws, the error slot takes the engine's
    message and the transcript gains the user entry only. *)
Theorem null_body_ends_in_the_error_slot w ui r :
  trim (input ui) ≠ [] →
  network w (lit "/api/chat") (posted (input ui)) = Resolves r →
  ok r = true → json r = inr JNull →
  settled w ui =
  {| messages :=
       messages ui ++
       [{| id := Number_toString (clock w 0); text := JStr (input ui);
           sender := user; timestamp := clock w 1 |}];
     input := [];
     isLoading := false;
     error := Some (type_error w JNull (lit "reply")) |}.
Proof.
  intros Hgood Hnet Hok Hjson.
  rewrite /settled submit_cases // Hnet Hok Hjson.
  exact (render_failure w ui (ThrowError (type_error w JNull (lit "reply")))).
Qed.

Lemma null_body_ends_in_the_error_slot_witness :
  bot_entries
    (messages (settled (browser (Resolves (answers 200 (lit "OK") JNull)))
                 (typed hello)))
  = [].
Proof.
  rewrite (null_body_ends_in_the_error_slot
             (browser (Resolves (answers 200 (lit "OK") JNull)))
             (typed hello) (answers 200 (lit "OK") JNull)).
  - vm_compute. discriminate.
  - reflexivity.
  - reflexivity.
  - reflexivity.
  - reflexivity.
Defined.

Lemma truthy_first_truthy data : ToBoolean (truthy_first data) = true.
Proof.
  rewrite /truthy_first /usable.
  destruct (field data (lit "reply")) as [reply|].
  - destruct (ToBoolean reply) eqn:Hr; [done|].
    destruct (field data (lit "message")) as [message|]; [|done].
    by destruct (ToBoolean message) eqn:Hm.
  - destruct (field data (lit "message")) as [message|]; [|done].
    by destruct (ToBoolean message) eqn:Hm.
Qed.

(** X12. The text of a bot entry is never falsy: whatever the body of a
    success holds, the entry the bridge appends shows a truthy value, so
    never the empty string, and a body with no field to show (an array,
    a number, a string, a boolean, an object without the two fields)
    gives "No response from bot". *)
Theorem bot_entry_is_never_empty w ui r data :
  trim (input ui) ≠ [] →
  network w (lit "/api/chat") (posted (input ui)) = Resolves r →
  ok r = true → json r = inr data →
  data ≠ JUndefined → data ≠ JNull →
  ∃ entry,
    last (messages (settled w ui)) = Some entry
    ∧ sender entry = bot
    ∧ ToBoolean (text entry) = true
    ∧ text entry ≠ JStr []
    ∧ (field data (lit "reply") = None → field data (lit "message") = None →
       text entry = JStr (lit "No response from bot")).
Proof.
  intros Hgood Hnet Hok Hjson Hu Hn.
  rewrite /settled (submit_succeeded w ui r data) // render_success /=.
  eexists. split; [by rewrite last_app|].
  simpl. split; [done|]. split; [apply truthy_first_truthy|].
  split.
  - intros Hempty. pose proof (truthy_first_truthy data) as H.
    by rewrite Hempty in H.
  - intros Hr Hm. by rewrite /truthy_first Hr Hm.
Qed.

Lemma bot_entry_is_never_empty_witness :
  ∃ entry,
    last (messages (settled (browser (Resolves (answers 200 (lit "OK") (JArr []))))
                      (typed hello))) = Some entry
    ∧ text entry = JStr (lit "No response from bot").
Proof.
  destruct (bot_entry_is_never_empty
              (browser (Resolves (answers 200 (lit "OK") (JArr []))))
              (typed hello) (answers 200 (lit "OK") (JArr [])) (JArr []))
    as (entry & Hlast & _ & _ & _ & Hnone).
  - vm_compute. discriminate.
  - reflexivity.
  - reflexivity.
  - reflexivity.
  - discriminate.
  - discriminate.
  - exists entry. split; [exact Hlast|]. by apply Hnone.
Defined.

(** X13. A submission only ever appends to the transcript: the entries
    that were there stay, in order, and what is added is nothing, the
    user entry alone, or the user entry followed by one bot entry. *)
Theorem transcript_only_grows w ui :
  ∃ added,
    messages (settled w ui) = messages ui ++ added
    ∧ (added = []
       ∨ added = [user_entry w (input ui)]
       ∨ ∃ reply, added = [user_entry w (input ui); bot_entry w reply]).
Proof.
  destruct (decide (trim (input ui) = [])) as [Hblank|Hgood].
  { exists []. rewrite /settled submit_empty //= app_nil_r. by split; [|left]. }
  rewrite /settled submit_cases //.
  assert (∀ e, ∃ added,
    messages (render ui (failure w (input ui) e)) = messages ui ++ added
    ∧ (added = [] ∨ added = [user_entry w (input ui)]
       ∨ ∃ reply, added = [user_entry w (input ui); bot_entry w reply]))
    as Hfailure.
  { intros e. exists [user_entry w (input ui)]. rewrite render_failure /=.
    split; [done|]. by right; left. }
  destruct (network w (lit "/api/chat") (posted (input ui))) as [e|r]; [done|].
  destruct (ok r); [|done].
  destruct (json r) as [e|data]; [done|].
  destruct (Get data (lit "reply")); [|done].
  exists [user_entry w (input ui); bot_entry w (truthy_first data)].
  rewrite render_success /= -app_assoc. split; [done|].
  right; right. by eexists.
Qed.

(** X14. The handler catches everything it starts: its promise always
    resolves, and a submission that sends a request always ends by
    lowering the loading flag and focusing the input, whatever the
    exchange did. *)
Theorem submission_always_ends_the_same_way w ui :
  trim (input ui) ≠ [] →
  (sendMessage w (input ui) start).2 = inr tt
  ∧ ∃ before, (submit w ui = before ++ [SetIsLoading false; Focus])
              ∧ (SetIsLoading false ∉ before) ∧ (Focus ∉ before).
Proof.
  intros Hgood. split; [apply sendMessage_resolves|].
  rewrite submit_cases //.
  assert (∀ e, ∃ before,
    (failure w (input ui) e = before ++ [SetIsLoading false; Focus])
    ∧ (SetIsLoading false ∉ before) ∧ (Focus ∉ before)) as Hfailure.
  { intros e. eexists. split; [rewrite /failure /closing app_assoc //|].
    rewrite /opening /=. split; intros Hin;
      repeat (apply elem_of_cons in Hin as [Hin|Hin]; [discriminate|]);
      by apply elem_of_nil in Hin. }
  destruct (network w (lit "/api/chat") (posted (input ui))) as [e|r]; [done|].
  destruct (ok r); [|done].
  destruct (json r) as [e|data]; [done|].
  destruct (Get data (lit "reply")); [|done].
  eexists. split; [rewrite /success /closing app_assoc //|].
  rewrite /opening /=. split; intros Hin;
    repeat (apply elem_of_cons in Hin as [Hin|Hin]; [discriminate|]);
    by apply elem_of_nil in Hin.
Qed.

Lemma submission_always_ends_the_same_way_witness :
  (sendMessage (browser (Rejects (ThrowValue (JNum 1)))) hello start).2 = inr tt.
Proof.
  apply (submission_always_ends_the_same_way
           (browser (Rejects (ThrowValue (JNum 1)))) (typed hello)).
  vm_compute. discriminate.
Defined.

(** X15. With a clock that does not run backwards between the two
    readings, the user entry and the bot entry of one exchange get
    different ids, so different React keys. *)
Theorem entries_of_an_exchange_have_different_ids w ui r data :
  trim (input ui) ≠ [] →
  network w (lit "/api/chat") (posted (input ui)) = Resolves r →
  ok r = true → json r = inr data →
  data ≠ JUndefined → data ≠ JNull →
  (clock w 0 ≤ clock w 2)%Z →
  ∃ asked answered,
    messages (settled w ui) = messages ui ++ [asked; answered]
    ∧ id asked ≠ id answered.
Proof.
  intros Hgood Hnet Hok Hjson Hu Hn Hclock.
  rewrite /settled (submit_succeeded w ui r data) // render_success /=.
  eexists _, _. split; [by rewrite -app_assoc|].
  simpl. intros Hsame%Number_toString_inj. lia.
Qed.

Lemma entries_of_an_exchange_have_different_ids_witness :
  ∃ asked answered,
    messages (settled (browser (Resolves (answers 200 (lit "OK") hi_there)))
                (typed hello)) = [asked; answered]
    ∧ id asked ≠ id answered.
Proof.
  apply (entries_of_an_exchange_have_different_ids
           (browser (Resolves (answers 200 (lit "OK") hi_there)))
           (typed hello) (answers 200 (lit "OK") hi_there) hi_there).
  - vm_compute. discriminate.
  - reflexivity.
  - reflexivity.
  - reflexivity.
  - discriminate.
  - discriminate.
  - vm_compute. discriminate.
Defined.

(** X16. The bridge does not read the body of an answer whose status is
    not a success, nor its status code: of such an answer only the
    status text reaches the state. *)
Theorem refused_answer_is_known_by_its_status_text w w' ui r r' :
  network w (lit "/api/chat") (posted (input ui)) = Resolves r →
  network w' (lit "/api/chat") (posted (input ui)) = Resolves r' →
  ok r = false → ok r' = false →
  statusText r = statusText r' →
  clock w 0 = clock w' 0 → clock w 1 = clock w' 1 →
  settled w ui = settled w' ui.
Proof.
  intros Hnet Hnet' Hok Hok' Htext Hid Hstamp.
  destruct (decide (trim (input ui) = [])) as [Hblank|Hgood].
  { by rewrite /settled !submit_empty. }
  rewrite /settled !submit_cases // Hnet Hnet' Hok Hok' !render_failure.
  by rewrite /status_error /user_entry Htext Hid Hstamp.
Qed.

Lemma refused_answer_is_known_by_its_status_text_witness :
  settled (browser (Resolves (answers 500 (lit "Internal Server Error") JNull)))
    (typed hello)
  = settled
      (browser (Resolves (answers 400 (lit "Internal Server Error")
                            Server.not_configured)))
      (typed hello).
Proof.
  apply (refused_answer_is_known_by_its_status_text
           (browser (Resolves (answers 500 (lit "Internal Server Error") JNull)))
           (browser (Resolves (answers 400 (lit "Internal Server Error")
                                 Server.not_configured)))
           (typed hello)
           (answers 500 (lit "Internal Server Error") JNull)
           (answers 400 (lit "Internal Server Error") Server.not_configured));
    reflexivity.
Defined.

(** X17. The one request of a submission is a JSON POST to [/api/chat]
    whose text carries the input as typed under [message]: white space
    at the ends is checked for but not removed. *)
Theorem request_carries_the_input_as_typed w ui :
  trim (input ui) ≠ [] → well_formed (input ui) →
  ∃ init,
    requests (submit w ui) = [(lit "/api/chat", init)]
    ∧ method init = lit "POST"
    ∧ headers init = [(lit "Content-Type", lit "application/json")]
    ∧ body init = JSON_stringify_field (lit "message") (input ui)
    ∧ JSON_parse_field (lit "message") (body init) = Some (input ui).
Proof.
  intros Hgood Hwf. exists (posted (input ui)).
  destruct (submit_opening w ui Hgood) as (rest & -> & Hrest).
  split.
  { rewrite /requests omap_app. fold (requests rest). by rewrite Hrest. }
  repeat split.
  apply JSON_field_round_trip; [apply lit_well_formed|done].
Qed.

Lemma request_carries_the_input_as_typed_witness :
  ∃ init,
    requests (submit (browser (Resolves unavailable)) (typed hello))
    = [(lit "/api/chat", init)]
    ∧ JSON_parse_field (lit "message") (body init) = Some (lit "  Hello ").
Proof.
  destruct (request_carries_the_input_as_typed
              (browser (Resolves unavailable)) (typed hello))
    as (init & Hsent & _ & _ & _ & Hread).
  - vm_compute. discriminate.
  - apply lit_well_formed.
  - exists init. split; [exact Hsent | exact Hread].
Defined.

End BridgeTable.

(** ** What the component draws around a submission *)
Section Drawing.
Import Js Eff Net Client Screen Examples.

Implicit Types (w : World) (ui : ChatState) (text : jsstring) (r : Response).

Lemma blank_is_falsy text :
  negb (ToBoolean (JStr (trim text))) = bool_decide (trim text = []).
Proof. simpl. by rewrite negb_involutive. Qed.

(** Every submission that sends a request leaves the same frame: the
    user entry in the transcript, an empty input, the loading flag
    down. *)
Lemma settled_frame w ui :
  trim (input ui) ≠ [] →
  ∃ more slot,
    settled w ui =
    {| messages := messages ui ++ user_entry w (input ui) :: more;
       input := []; isLoading := false; error := slot |}.
Proof.
  intros Hgood. rewrite /settled submit_cases //.
  assert (∀ e, ∃ more slot,
    render ui (failure w (input ui) e) =
    {| messages := messages ui ++ user_entry w (input ui) :: more;
       input := []; isLoading := false; error := slot |}) as Hfailure.
  { intros e. eexists [], _. by rewrite render_failure. }
  destruct (network w (lit "/api/chat") (posted (input ui))) as [e|r]; [done|].
  destruct (ok r); [|done].
  destruct (json r) as [e|data]; [done|].
  destruct (Get data (lit "reply")); [|done].
  eexists [_], _. by rewrite render_success -app_assoc.
Qed.

(** X18. Typing changes the input cell and nothing else, and the button
    and the handler's guard agree on what can be sent: the button is
    enabled exactly when no exchange is under way and a submission of
    the typed text would send a request. *)
Theorem button_agrees_with_the_guard w ui text :
  messages (render ui (onChange text)) = messages ui
  ∧ error (render ui (onChange text)) = error ui
  ∧ isLoading (render ui (onChange text)) = isLoading ui
  ∧ field_value (Chat (render ui (onChange text))) = text
  ∧ (button_disabled (Chat (render ui (onChange text))) = false ↔
     isLoading ui = false
     ∧ requests (submit w (render ui (onChange text)))
       = [(lit "/api/chat", posted text)]).
Proof.
  do 4 (split; [done|]).
  assert (input (render ui (onChange text)) = text) as Htyped by done.
  assert (isLoading (render ui (onChange text)) = isLoading ui) as <- by done.
  revert Htyped. generalize (render ui (onChange text)). intros ui' <-.
  rewrite /Chat /= negb_involutive. split.
  - intros H. apply orb_false_iff in H as [Hidle H]. split; [done|].
    apply bool_decide_eq_false in H.
    destruct (submit_opening w ui') as (rest & -> & Hrest); [done|].
    rewrite /requests omap_app. fold (requests rest). by rewrite Hrest.
  - intros [-> Hsent]. simpl.
    apply bool_decide_eq_false. intros Hblank.
    by rewrite (submit_empty w ui') in Hsent.
Qed.

(** X19. While the request is out the component shows the user's bubble
    last, right-aligned, the typing indicator, no error panel and no
    empty-state placeholder; the field is empty and disabled and the
    button is disabled and reads "Sending...". *)
Theorem screen_while_sending w ui :
  trim (input ui) ≠ [] →
  Chat (in_flight w ui) =
  {| empty_state := false;
     error_panel := None;
     bubbles :=
       List.map bubble (messages ui)
       ++ [{| key := Number_toString (clock w 0); justify := justify_end;
              avatar := lit "You"; content := JStr (input ui) |}];
     typing := true;
     field_value := [];
     field_disabled := true;
     button_disabled := true;
     button_label := lit "Sending..." |}.
Proof.
  intros Hgood. rewrite /in_flight.
  destruct (submit_opening w ui Hgood) as (rest & -> & _).
  rewrite /Chat /= length_app /= List.map_app /=.
  by replace (length (messages ui) + 1 =? 0)%nat with false
    by (symmetry; apply Nat.eqb_neq; lia).
Qed.

Lemma screen_while_sending_witness :
  typing (Chat (in_flight (browser (Resolves unavailable)) (typed hello))) = true
  ∧ error_panel (Chat (in_flight (browser (Resolves unavailable)) (typed hello)))
    = None.
Proof.
  rewrite (screen_while_sending (browser (Resolves unavailable)) (typed hello)).
  - vm_compute. discriminate.
  - split; reflexivity.
Defined.

Lemma forallb_map_bubble (ms : list Message) :
  forallb (λ b, valid_child (content b)) (List.map bubble ms)
  = forallb (λ m, valid_child (text m)) ms.
Proof. induction ms as [|m ms IH]; [done|]. simpl. by rewrite IH. Qed.

(** Something is drawn exactly when no entry holds an object. *)
Lemma displayed_drawable ui :
  is_Some (displayed ui) ↔
  forallb (λ m, valid_child (text m)) (messages ui) = true.
Proof.
  rewrite /displayed /mount /= forallb_map_bubble.
  by destruct (forallb _ _); split; try done; intros [? ?].
Qed.

Lemma displayed_Chat ui d : displayed ui = Some d → d = Chat ui.
Proof.
  rewrite /displayed /mount. destruct (forallb _ _); [|done].
  by intros [= <-].
Qed.

(** X20. Once a submission that sent a request has settled, the
    component is still drawn exactly when it was drawn before and the
    exchange did not end in a success whose selected reply React cannot
    draw (an object, or an array holding one); and whenever it is drawn,
    whatever the outcome, the placeholder is gone, the typing indicator
    is off, the field is enabled and empty, and the button reads "Send"
    and is disabled until something is typed. *)
Theorem screen_after_settling w ui :
  trim (input ui) ≠ [] →
  (∀ d, displayed (settled w ui) = Some d →
     empty_state d = false
     ∧ typing d = false
     ∧ field_disabled d = false
     ∧ field_value d = []
     ∧ button_disabled d = true
     ∧ button_label d = lit "Send")
  ∧ (is_Some (displayed (settled w ui)) ↔
     is_Some (displayed ui)
     ∧ ∀ r data,
         network w (lit "/api/chat") (posted (input ui)) = Resolves r →
         ok r = true → json r = inr data →
         data ≠ JUndefined → data ≠ JNull →
         valid_child (truthy_first data) = true).
Proof.
  intros Hgood. split.
  - intros d ->%displayed_Chat.
    destruct (settled_frame w ui Hgood) as (more & slot & ->).
    repeat split. rewrite /Chat /= length_app /=.
    by replace (length (messages ui) + S (length more) =? 0)%nat with false
      by (symmetry; apply Nat.eqb_neq; lia).
  - rewrite !displayed_drawable /settled submit_cases //.
    assert (∀ e,
      forallb (λ m, valid_child (text m))
        (messages (render ui (failure w (input ui) e))) = true ↔
      forallb (λ m, valid_child (text m)) (messages ui) = true) as Hfailure.
    { intros e. rewrite render_failure /= forallb_app /=.
      by rewrite !andb_true_r. }
    destruct (network w (lit "/api/chat") (posted (input ui))) as [e|r] eqn:Hnet.
    { rewrite Hfailure. split; [|by intros [Hold _]].
      intros Hold. split; [done|]. intros r data Hr. discriminate Hr. }
    destruct (ok r) eqn:Hok.
    2: { rewrite Hfailure. split; [|by intros [Hold _]].
         intros Hold. split; [done|]. intros r' data [= <-]. congruence. }
    destruct (json r) as [e|data] eqn:Hjson.
    { rewrite Hfailure. split; [|by intros [Hold _]].
      intros Hold. split; [done|]. intros r' data [= <-]. congruence. }
    destruct (Get data (lit "reply")) eqn:Hget.
    + rewrite render_success /= !forallb_app /= !andb_true_r.
      rewrite andb_true_iff. split.
      * intros [Hold Hreply]. split; [done|].
        intros r' data' [= <-] _ Hjson' _ _. congruence.
      * intros [Hold Hreply]. split; [done|].
        apply (Hreply r data); try done; by intros ->.
    + rewrite Hfailure. split; [|by intros [Hold _]].
      intros Hold. split; [done|]. intros r' data' [= <-] _ Hjson' Hu Hn.
      assert (data' = data) as -> by congruence. by destruct data.
Qed.

Lemma screen_after_settling_witness :
  button_disabled <$>
    displayed (settled (browser (Resolves (answers 200 (lit "OK") hi_there)))
                 (typed hello))
  = Some true.
Proof.
  destruct (screen_after_settling
              (browser (Resolves (answers 200 (lit "OK") hi_there)))
              (typed hello)) as [Hfields _].
  - vm_compute. discriminate.
  - destruct (displayed
                (settled (browser (Resolves (answers 200 (lit "OK") hi_there)))
                   (typed hello))) as [d|] eqn:Hdrawn.
    + destruct (Hfields d eq_refl) as (_ & _ & _ & _ & Hbutton & _).
      simpl. by rewrite Hbutton.
    + vm_compute in Hdrawn. discriminate Hdrawn.
Defined.

Lemma includes_after_prefix (t : jsstring) :
  includes (lit "API error: " ++ t) (lit "N8N_WEBHOOK_URL")
  = includes t (lit "N8N_WEBHOOK_URL").
Proof.
  change (lit "API error: ")
    with [65; 80; 73; 32; 101; 114; 114; 111; 114; 58; 32].
  change (lit "N8N_WEBHOOK_URL")
    with [78; 56; 78; 95; 87; 69; 66; 72; 79; 79; 75; 95; 85; 82; 76].
  done.
Qed.

Lemma panel_of_error ui (e : jsstring) :
  error ui = Some e → e ≠ [] →
  error_panel (Chat ui) =
  Some {| shown := e; hint := includes e (lit "N8N_WEBHOOK_URL") |}.
Proof.
  intros He Hne. rewrite /Chat /= He. by rewrite bool_decide_eq_false_2.
Qed.

Lemma panel_of_api_error ui (t : jsstring) :
  error ui = Some (lit "API error: " ++ t) →
  error_panel (Chat ui) =
  Some {| shown := lit "API error: " ++ t;
          hint := includes t (lit "N8N_WEBHOOK_URL") |}.
Proof.
  intros He. rewrite -includes_after_prefix. apply panel_of_error; [done|].
  change (lit "API error: ")
    with [65; 80; 73; 32; 101; 114; 114; 111; 114; 58; 32].
  done.
Qed.

(** X21. After an answer whose status is not a success the error panel
    is shown with "API error: " and the status text, and the hint about
    the environment file is added exactly when the status text itself
    has [N8N_WEBHOOK_URL] in it. *)
Theorem error_panel_after_a_refused_status w ui r :
  trim (input ui) ≠ [] →
  network w (lit "/api/chat") (posted (input ui)) = Resolves r →
  ok r = false →
  error_panel (Chat (settled w ui)) =
  Some {| shown := lit "API error: " ++ statusText r;
          hint := includes (statusText r) (lit "N8N_WEBHOOK_URL") |}.
Proof.
  intros Hgood Hnet Hok. apply panel_of_api_error.
  by rewrite /settled submit_cases // Hnet Hok render_failure.
Qed.

Lemma error_panel_after_a_refused_status_witness :
  error_panel
    (Chat (settled
             (browser (Resolves (answers 500 (lit "Internal Server Error")
                                   Server.not_configured)))
             (typed hello)))
  = Some {| shown := lit "API error: Internal Server Error"; hint := false |}.
Proof.
  rewrite (error_panel_after_a_refused_status
             (browser (Resolves (answers 500 (lit "Internal Server Error")
                                   Server.not_configured)))
             (typed hello)
             (answers 500 (lit "Internal Server Error") Server.not_configured)).
  - vm_compute. discriminate.
  - reflexivity.
  - reflexivity.
  - vm_compute. reflexivity.
Defined.

(** X22. After a successful exchange whose selected reply React can
    draw, a component that was drawn keeps its bubbles, in order,
    followed by the typed text right-aligned beside "You" and then the
    reply left-aligned beside "AI", each keyed by the id of its entry.
    When the selected reply is an object (or an array holding one) the
    render throws and nothing of the component is drawn any more. *)
Theorem bubbles_after_a_successful_exchange w ui r data :
  trim (input ui) ≠ [] →
  network w (lit "/api/chat") (posted (input ui)) = Resolves r →
  ok r = true → json r = inr data →
  data ≠ JUndefined → data ≠ JNull →
  (valid_child (truthy_first data) = true →
   ∀ before, displayed ui = Some before →
     ∃ after,
       displayed (settled w ui) = Some after
       ∧ bubbles after =
         bubbles before
         ++ [{| key := Number_toString (clock w 0); justify := justify_end;
                avatar := lit "You"; content := JStr (input ui) |};
             {| key := Number_toString (clock w 2 + 1);
                justify := justify_start;
                avatar := lit "AI"; content := truthy_first data |}])
  ∧ (valid_child (truthy_first data) = false →
     displayed (settled w ui) = None).
Proof.
  intros Hgood Hnet Hok Hjson Hu Hn.
  rewrite /settled (submit_succeeded w ui r data) // render_success.
  rewrite /displayed /mount /= !forallb_map_bubble !forallb_app /=.
  rewrite !andb_true_r. split.
  - intros Hreply before Hbefore.
    destruct (forallb _ (messages ui)); [|done].
    injection Hbefore as <-. rewrite Hreply /=. eexists. split; [done|].
    by rewrite /= -app_assoc List.map_app.
  - intros ->. by rewrite andb_false_r.
Qed.

Lemma bubbles_after_a_successful_exchange_witness :
  ((λ d, content <$> bubbles d) <$>
     displayed (settled (browser (Resolves (answers 200 (lit "OK") hi_there)))
                  (typed hello))
   = Some [JStr hello; JStr (lit "Hi there")])
  ∧ displayed
      (settled
         (browser (Resolves (answers 200 (lit "OK")
            (object [(lit "reply", object [(lit "text", JStr (lit "Hi"))])]))))
         (typed hello))
    = None.
Proof.
  split.
  - destruct (bubbles_after_a_successful_exchange
                (browser (Resolves (answers 200 (lit "OK") hi_there)))
                (typed hello) (answers 200 (lit "OK") hi_there) hi_there)
      as [Hdrawn _].
    + vm_compute. discriminate.
    + reflexivity.
    + reflexivity.
    + reflexivity.
    + discriminate.
    + discriminate.
    + destruct (Hdrawn eq_refl (Screen.Chat (typed hello)) eq_refl)
        as (after & -> & Hbubbles).
      simpl. rewrite Hbubbles. vm_compute. reflexivity.
  - apply (bubbles_after_a_successful_exchange
             (browser (Resolves (answers 200 (lit "OK")
                (object [(lit "reply", object [(lit "text", JStr (lit "Hi"))])]))))
             (typed hello)
             (answers 200 (lit "OK")
                (object [(lit "reply", object [(lit "text", JStr (lit "Hi"))])]))
             (object [(lit "reply", object [(lit "text", JStr (lit "Hi"))])])).
    + vm_compute. discriminate.
    + reflexivity.
    + reflexivity.
    + reflexivity.
    + discriminate.
    + discriminate.
    + vm_compute. reflexivity.
Defined.

End Drawing.

(** ** The two sides together *)
Section Together.
Import Js Eff Net Hop Examples.

Implicit Types (cw : Client.World) (sw : Server.World) (ui : Client.ChatState)
  (text gate : jsstring) (r : Response) (data : JsValue).

Lemma received_message text :
  Get (received text) (lit "message") = Some (JStr text).
Proof.
  reflexivity.
Qed.

(** The gateway's one answer to a request body it can destructure. *)
Lemma one_answer sw text :
  ∃ code answer,
    Server.responses (Server.trace (Server.run sw (received text)).1)
    = [(code, answer)]
    ∧ (code = 200 ∨ code = 400 ∨ code = 500).
Proof.
  destruct (run_table sw (received text) (JStr text) (received_message text))
    as [[_ ->] | [(s & _ & _ & _ & ->) | [(s & url & r & data & Hrun)
        | (s & url & e & _ & _ & _ & _ & _ & ->)]]].
  - exists 400, Server.message_required. naive_solver.
  - exists 500, Server.not_configured. naive_solver.
  - destruct Hrun as (_ & _ & _ & _ & _ & _ & _ & ->).
    exists 200, data. naive_solver.
  - exists 500, (Server.unreachable e). naive_solver.
Qed.

(** X23. What the bridge sends the gateway does not refuse as a missing
    message: the two guards use the same test, so for text the bridge
    lets through the gateway never answers 400. *)
Theorem gateway_never_refuses_what_the_bridge_sends cw sw ui init text :
  (lit "/api/chat", init) ∈ Client.requests (Client.submit cw ui) →
  well_formed (Client.input ui) →
  JSON_parse_field (lit "message") (body init) = Some text →
  text = Client.input ui
  ∧ ∀ answer,
      (400, answer) ∉
      Server.responses (Server.trace (Server.run sw (received text)).1).
Proof.
  intros Hsent Hwf Hread.
  destruct (decide (trim (Client.input ui) = [])) as [Hblank|Hgood].
  { rewrite submit_empty // in Hsent. by apply elem_of_nil in Hsent. }
  destruct (submit_opening cw ui Hgood) as (rest & Hsubmit & Hrest).
  rewrite Hsubmit /Client.requests omap_app in Hsent.
  fold (Client.requests rest) in Hsent. rewrite Hrest /= in Hsent.
  apply list_elem_of_singleton in Hsent. injection Hsent as ->.
  change (body (Client.posted (Client.input ui)))
    with (JSON_stringify_field (lit "message") (Client.input ui)) in Hread.
  rewrite JSON_field_round_trip in Hread; [apply lit_well_formed|done|].
  injection Hread as <-. split; [done|].
  intros answer Hin.
  destruct (run_table sw (received (Client.input ui)) (JStr (Client.input ui))
              (received_message _))
    as [[Hbad _] | [(s & _ & _ & _ & Hrun) | [(s & url & r & data & Hrun)
        | (s & url & e & _ & _ & _ & _ & _ & Hrun)]]].
  - by apply (Invalid_not_valid (Client.input ui)).
  - rewrite Hrun /= in Hin. by apply list_elem_of_singleton in Hin.
  - destruct Hrun as (_ & _ & _ & _ & _ & _ & _ & Hrun).
    rewrite Hrun /= in Hin. by apply list_elem_of_singleton in Hin.
  - rewrite Hrun /= in Hin. by apply list_elem_of_singleton in Hin.
Qed.

Lemma gateway_never_refuses_what_the_bridge_sends_witness :
  hello = Client.input (typed hello)
  ∧ (400, Server.message_required) ∉
    Server.responses
      (Server.trace (Server.run (gateway None (Resolves unavailable))
                       (received hello)).1).
Proof.
  destruct (gateway_never_refuses_what_the_bridge_sends
              (browser (Resolves unavailable)) (gateway None (Resolves unavailable))
              (typed hello) (Client.posted hello) hello) as [Htext Hnever].
  - vm_compute. apply list_elem_of_singleton. reflexivity.
  - apply lit_well_formed.
  - vm_compute. reflexivity.
  - split; [exact Htext | exact (Hnever Server.message_required)].
Defined.

(** X24. From the input field to the transcript: when the request body
    reaches the handler as sent, the webhook answers with a success and
    a body other than [null], and the gateway's answer comes back to the
    bridge, then the webhook was asked once, with the typed text
    trimmed, and the transcript gains the typed text as it was and the
    first truthy of the webhook's [reply] and [message]. *)
Theorem typed_text_to_transcript cw sw ui gate r data r' :
  trim (Client.input ui) ≠ [] → well_formed (Client.input ui) →
  Server.N8N_WEBHOOK_URL sw = Some gate → gate ≠ [] →
  Server.network sw gate (Server.forwarded (Client.input ui)) = Resolves r →
  ok r = true → json r = inr data →
  data ≠ JUndefined → data ≠ JNull →
  Client.network cw (lit "/api/chat") (Client.posted (Client.input ui))
  = Resolves r' →
  (∀ answer,
     Server.responses
       (Server.trace (Server.run sw (received (Client.input ui))).1) = [answer] →
     Delivers answer r') →
  Server.outbound (Server.trace (Server.run sw (received (Client.input ui))).1)
  = [(gate, Server.forwarded (Client.input ui))]
  ∧ JSON_parse_field (lit "query") (body (Server.forwarded (Client.input ui)))
    = Some (trim (Client.input ui))
  ∧ Client.messages (Client.settled cw ui) =
    Client.messages ui ++
    [Client.user_entry cw (Client.input ui);
     Client.bot_entry cw (Client.truthy_first data)].
Proof.
  intros Hgood Hwf Hgate Hne Hhook Hok Hjson Hu Hn Hnet Hhop.
  assert (Server.run sw (received (Client.input ui)) =
          ({| Server.statusCode := 200;
              Server.trace :=
                [Server.Fetch gate (Server.forwarded (Client.input ui));
                 Server.Respond 200 data] |}, inr tt)) as Hrun.
  { by rewrite (run_configured _ _ (Client.input ui) gate)
      ?received_message // Hhook Hok Hjson. }
  destruct (Hhop (200, data)) as [Hstatus Hbody]; [by rewrite Hrun|].
  simpl in Hstatus, Hbody.
  split; [by rewrite Hrun|]. split.
  { apply JSON_field_round_trip; [apply lit_well_formed|].
    by apply trim_well_formed. }
  rewrite /Client.settled (submit_succeeded cw ui r' data) //;
    [by rewrite /ok Hstatus|].
  by rewrite render_success -app_assoc.
Qed.

Lemma typed_text_to_transcript_witness :
  Client.messages
    (Client.settled (browser (Resolves (answers 200 (lit "OK") hi_there)))
       (typed hello))
  = [Client.user_entry (browser (Resolves (answers 200 (lit "OK") hi_there))) hello;
     Client.bot_entry (browser (Resolves (answers 200 (lit "OK") hi_there)))
       (JStr (lit "Hi there"))].
Proof.
  destruct (typed_text_to_transcript
              (browser (Resolves (answers 200 (lit "OK") hi_there)))
              (gateway (Some webhook) (Resolves (answers 200 (lit "OK") hi_there)))
              (typed hello) webhook (answers 200 (lit "OK") hi_there) hi_there
              (answers 200 (lit "OK") hi_there)) as (_ & _ & Hshown).
  - vm_compute. discriminate.
  - apply lit_well_formed.
  - reflexivity.
  - vm_compute. discriminate.
  - reflexivity.
  - reflexivity.
  - reflexivity.
  - discriminate.
  - discriminate.
  - reflexivity.
  - intros answer Hanswer. vm_compute in Hanswer.
    injection Hanswer as <-. split; reflexivity.
  - exact Hshown.
Defined.

(** X25. Whatever goes wrong behind the gateway reaches the user as the
    status text only: when the gateway's answer is not the webhook's
    success, the bridge shows "API error: " with the status text of the
    response, adds no bot entry, and shows none of the gateway's own
    [error] or [message] texts. *)
Theorem gateway_refusal_reaches_the_user_as_status_text cw sw ui r' :
  trim (Client.input ui) ≠ [] →
  Client.network cw (lit "/api/chat") (Client.posted (Client.input ui))
  = Resolves r' →
  (∀ answer,
     Server.responses
       (Server.trace (Server.run sw (received (Client.input ui))).1) = [answer] →
     Delivers answer r') →
  (∀ data,
     (200, data) ∉
     Server.responses
       (Server.trace (Server.run sw (received (Client.input ui))).1)) →
  Client.error (Client.settled cw ui)
  = Some (lit "API error: " ++ statusText r')
  ∧ Client.messages (Client.settled cw ui)
    = Client.messages ui ++ [Client.user_entry cw (Client.input ui)]
  ∧ Screen.error_panel (Screen.Chat (Client.settled cw ui))
    = Some {| Screen.shown := lit "API error: " ++ statusText r';
              Screen.hint :=
                Screen.includes (statusText r') (lit "N8N_WEBHOOK_URL") |}.
Proof.
  intros Hgood Hnet Hhop Hnot200.
  destruct (one_answer sw (Client.input ui)) as (code & answer & Hone & Hcode).
  destruct (Hhop _ Hone) as [Hstatus _]. simpl in Hstatus.
  assert (ok r' = false) as Hok.
  { rewrite /ok Hstatus. destruct Hcode as [-> | [-> | ->]]; [|done..].
    destruct (Hnot200 answer). rewrite Hone. by apply list_elem_of_singleton. }
  split; [|split].
  - by rewrite /Client.settled submit_cases // Hnet Hok render_failure.
  - by rewrite /Client.settled submit_cases // Hnet Hok render_failure.
  - apply panel_of_api_error.
    by rewrite /Client.settled submit_cases // Hnet Hok render_failure.
Qed.

Lemma gateway_refusal_reaches_the_user_as_status_text_witness :
  Client.error
    (Client.settled
       (browser (Resolves (answers 500 (lit "Internal Server Error")
                             Server.not_configured)))
       (typed hello))
  = Some (lit "API error: Internal Server Error").
Proof.
  destruct (gateway_refusal_reaches_the_user_as_status_text
              (browser (Resolves (answers 500 (lit "Internal Server Error")
                                    Server.not_configured)))
              (gateway None (Resolves unavailable))
              (typed hello)
              (answers 500 (lit "Internal Server Error") Server.not_configured))
    as (Herror & _).
  - vm_compute. discriminate.
  - reflexivity.
  - intros answer Hanswer. vm_compute in Hanswer.
    injection Hanswer as <-. split; reflexivity.
  - intros data Hin. vm_compute in Hin.
    apply list_elem_of_singleton in Hin. discriminate Hin.
  - exact Herror.
Defined.

End Together.
